(** * Report rendering of the autocannon load-test runner (src/index.js)

    A shallow embedding of the report pipeline of index.js: the timeline
    and chart specifications of [generateCharts], the page cursor and the
    payload preview of [generatePDF], and the ranking, colouring, callouts
    and table batching of [generateComparisonReport], followed by the
    properties the specification states about them.

    Conventions of the embedding.
    - A JavaScript number is a finite double, kept by its exact value, a
      rational ([Q]), or [NaN].  Where the source computes a quotient or
      a product that need not be a double again (the colour gradient, the
      value of a numeral), the exact result is followed by [double], the
      rounding to the nearest double with ties to even.  The coordinates
      of the page layout are kept as exact rationals.  The infinities,
      and with them results of magnitude 2^1024 and more, are outside
      the embedding.
    - A JavaScript string is a [string] of code units below 256.
    - An object is the list of its own enumerable properties in the order
      [Object.keys] lists them.  The values of properties are undefined,
      null, booleans, numbers and plain objects; strings and arrays as
      values of properties are outside the embedding.
    - Code that can throw returns a [completion].
    - A loop that the source can run without end takes fuel. *)

From Stdlib Require Import QArith Qround Qabs Qminmax Qpower ZArith NArith Ascii String Lia Lqa.
From Stdlib Require Import SpecFloat.
From Stdlib Require DecimalString DecimalN DecimalPos DecimalFacts.
From stdpp Require Import base list sorting strings gmap.

Set Warnings "-register-all".

Local Open Scope string_scope.

(** ** The JavaScript fragment the report code relies on *)

Module JS.

(** *** Completions *)

Inductive error : Type :=
| TypeError
| ReferenceError (identifier : string).

Inductive completion (A : Type) : Type :=
| Normal (a : A)
| Throw (e : error).
Arguments Normal {A} a.
Arguments Throw {A} e.

Definition bind {A B} (c : completion A) (k : A -> completion B) : completion B :=
  match c with
  | Normal a => k a
  | Throw e => Throw e
  end.

(** [x ← c; k] runs [c], then [k] on its result unless [c] threw. *)
#[global] Instance completion_bind : MBind completion :=
  fun A B k c => bind c k.

(** [forEach]-style traversal that stops at the first throw. *)
Fixpoint traverse {A B} (f : A -> completion B) (l : list A) : completion (list B) :=
  match l with
  | [] => Normal []
  | x :: l' =>
      bind (f x) (fun y => bind (traverse f l') (fun ys => Normal (y :: ys)))
  end.

(** *** Numbers and values *)

Inductive number : Type :=
| Num (q : Q)
| NaN.

Inductive value : Type :=
| VUndefined
| VNull
| VBool (b : bool)
| VNumber (n : number)
| VObject (props : list (string * value)).

Definition of_Z (z : Z) : value := VNumber (Num (inject_Z z)).

(** [q == 0]. *)
Definition Qeqb0 (q : Q) : bool := Z.eqb (Qnum q) 0.

(** ToBoolean. *)
Definition truthy (v : value) : bool :=
  match v with
  | VUndefined | VNull => false
  | VBool b => b
  | VNumber (Num q) => negb (Qeqb0 q)
  | VNumber NaN => false
  | VObject _ => true
  end.

(** ToNumber, on the values of the embedding: a plain object converts
    through its string form, "[object Object]", which is not a numeral.
    (An array converts through the join of its elements and can be a
    number; arrays are not values of the embedding.) *)
Definition ToNumber (v : value) : number :=
  match v with
  | VUndefined => NaN
  | VNull => Num 0
  | VBool b => Num (if b then 1 else 0)
  | VNumber n => n
  | VObject _ => NaN
  end.

Definition isNaN (n : number) : bool :=
  match n with NaN => true | Num _ => false end.

(** [a - b] on numbers; the comparators use its sign only, and the
    difference of two doubles is rounded to a double of the same sign. *)
Definition sub (a b : number) : number :=
  match a, b with
  | Num x, Num y => Num (x - y)
  | _, _ => NaN
  end.

(** [n > 0]; false on NaN. *)
Definition gt_zero (n : number) : bool :=
  match n with
  | Num q => Z.ltb 0 (Qnum q)
  | NaN => false
  end.

(** [typeof v === "object"]. *)
Definition typeof_object (v : value) : bool :=
  match v with
  | VNull | VObject _ => true
  | _ => false
  end.

(** *** Property access *)

Fixpoint assoc (k : string) (props : list (string * value)) : option value :=
  match props with
  | [] => None
  | (k', v) :: rest => if String.eqb k k' then Some v else assoc k rest
  end.

(** [o[k]] and [o.k]: reading a property of undefined or null throws;
    a property that is absent reads as undefined. *)
Definition get (o : value) (k : string) : completion value :=
  match o with
  | VUndefined | VNull => Throw TypeError
  | VObject props => Normal (default VUndefined (assoc k props))
  | VBool _ | VNumber _ => Normal VUndefined
  end.

(** [Object.keys], [Object.values], [Object.entries]. *)
Definition Object_entries (o : value) : completion (list (string * value)) :=
  match o with
  | VUndefined | VNull => Throw TypeError
  | VObject props => Normal props
  | VBool _ | VNumber _ => Normal []
  end.

Definition Object_keys (o : value) : completion (list string) :=
  bind (Object_entries o) (fun es => Normal (map fst es)).

Definition Object_values (o : value) : completion (list value) :=
  bind (Object_entries o) (fun es => Normal (map snd es)).

(** *** Binary floating point

    The operations [+], [-], [*] and [/] of two doubles give the double
    nearest to the exact result, the one with the even significand when
    two are as near (IEEE 754 binary64, round to nearest even). *)

Local Open Scope Q_scope.

(** The integer nearest to [q], the even one on a tie. *)
Definition round_half_even (q : Q) : Z :=
  let f := Qfloor q in
  match Qcompare (q - inject_Z f) (1 # 2) with
  | Lt => f
  | Gt => (f + 1)%Z
  | Eq => if Z.even f then f else (f + 1)%Z
  end.

(** The exponent [e] with [2^e <= q < 2^(e+1)], for a positive [q]. *)
Definition binade (q : Q) : Z :=
  let e := (Z.log2 (Qnum q) - Z.log2 (Z.pos (Qden q)))%Z in
  if Qle_bool (2 ^ e) q then e else (e - 1)%Z.

(** A positive [q] rounded to 53 significant bits; below 2^-1022 the
    spacing of the doubles stays 2^-1074. *)
Definition double_pos (q : Q) : Q :=
  let e := Z.max (binade q) (-1022) in
  let ulp := 2 ^ (e - 52) in
  inject_Z (round_half_even (q / ulp)) * ulp.

(** The double nearest to [q], in lowest terms. *)
Definition double (q : Q) : Q :=
  Qred (match Qcompare q 0 with
        | Eq => 0
        | Gt => double_pos q
        | Lt => - double_pos (- q)
        end).

Definition fadd (x y : Q) : Q := double (x + y).
Definition fsub (x y : Q) : Q := double (x - y).
Definition fmul (x y : Q) : Q := double (x * y).
Definition fdiv (x y : Q) : Q := double (x / y).

(** The same operations of the Standard Library's specification of
    IEEE 754 ([SpecFloat], precision 53, maximal exponent 1024), to
    compare [double] with. *)
Definition binary64_of_Z (z : Z) : spec_float := binary_normalize 53 1024 z 0 false.

Definition binary64_value (f : spec_float) : option Q :=
  match f with
  | S754_zero _ => Some 0
  | S754_finite s m e =>
      Some (Qred ((if s then - inject_Z (Z.pos m) else inject_Z (Z.pos m)) * 2 ^ e))
  | S754_infinity _ | S754_nan => None
  end.

Definition binary64_is (f : spec_float) (q : Q) : bool :=
  match binary64_value f with
  | Some v => Qeq_bool v q
  | None => false
  end.

(** For the doubles nearest to [a/b] and [c/d]: whether their sum,
    difference, product and quotient in binary64 are the roundings of
    the exact results. *)
Definition agrees_with_binary64 (a b c d : Z) : bool :=
  let x := SFdiv 53 1024 (binary64_of_Z a) (binary64_of_Z b) in
  let y := SFdiv 53 1024 (binary64_of_Z c) (binary64_of_Z d) in
  let qx := double (inject_Z a / inject_Z b) in
  let qy := double (inject_Z c / inject_Z d) in
  binary64_is x qx && binary64_is y qy &&
  binary64_is (SFadd 53 1024 x y) (fadd qx qy) &&
  binary64_is (SFsub 53 1024 x y) (fsub qx qy) &&
  binary64_is (SFmul 53 1024 x y) (fmul qx qy) &&
  binary64_is (SFdiv 53 1024 x y) (fdiv qx qy).

Local Close Scope Q_scope.

(** *** Math.round and Math.floor

    [Math.round] gives the integer nearest to its argument, the larger
    one on a tie, without rounding the sum. *)

Definition Math_round (q : Q) : Z := Qfloor (q + (1 # 2)).
Definition Math_floor (q : Q) : Z := Qfloor q.

(** *** Array.prototype.sort

    The comparator returns a number; [later a b] is "comparator(a, b) > 0",
    a non-positive or NaN result leaves [a] before [b].  The sort is
    stable (ECMAScript 2019), so for a consistent comparator its result
    is the one this insertion sort computes. *)

Section Sort.
Context {A : Type} (later : A -> A -> bool).

Fixpoint insert_sorted (x : A) (l : list A) : list A :=
  match l with
  | [] => [x]
  | y :: l' => if later x y then y :: insert_sorted x l' else x :: y :: l'
  end.

Fixpoint Array_sort (l : list A) : list A :=
  match l with
  | [] => []
  | x :: l' => insert_sorted x (Array_sort l')
  end.

End Sort.

(** *** Strings *)

(** [s.substring(0, n)] for a natural [n]. *)
Definition substring_to (n : nat) (s : string) : string := String.substring 0 n s.

Definition digit_char (d : N) : ascii := ascii_of_N (48 + d).

(** The digits of [n], most significant first, in front of [acc]; a
    number of [k] bits has at most [k] digits. *)
Fixpoint render_digits (fuel : nat) (n : N) (acc : string) : string :=
  match fuel with
  | O => acc
  | S fuel' =>
      let acc' := String (digit_char (n mod 10)) acc in
      if (n <? 10)%N then acc' else render_digits fuel' (n / 10) acc'
  end.

(** The decimal numeral of a non-negative integer, as [String(n)], a
    property key and a template literal print it (below 10^21, where
    JavaScript switches to exponent notation). *)
Definition string_of_N (n : N) : string :=
  render_digits (S (N.size_nat n)) n "".

Definition string_of_Z (z : Z) : string :=
  if (z <? 0)%Z then "-" +:+ string_of_N (Z.abs_N z) else string_of_N (Z.abs_N z).

(** The value of a character as a digit: 0-9, then a-z and A-Z for 10-35. *)
Definition digit_value (c : ascii) : option N :=
  let n := N_of_ascii c in
  if ((48 <=? n) && (n <=? 57))%N then Some (n - 48)%N
  else if ((97 <=? n) && (n <=? 122))%N then Some (n - 87)%N
  else if ((65 <=? n) && (n <=? 90))%N then Some (n - 55)%N
  else None.

(** The longest prefix of digits below the radix, read left to right;
    [None] while no digit has been read. *)
Fixpoint parse_digits (radix : N) (s : string) (acc : option N) : option N :=
  match s with
  | EmptyString => acc
  | String c s' =>
      match digit_value c with
      | Some d =>
          if (d <? radix)%N
          then parse_digits radix s' (Some (radix * default 0%N acc + d)%N)
          else acc
      | None => acc
      end
  end.

(** Strings of decimal digits. *)
Fixpoint digits_only (s : string) : Prop :=
  match s with
  | EmptyString => True
  | String c s' => (exists d, (d < 10)%N /\ c = digit_char d) /\ digits_only s'
  end.

(** The code units below 256 that [parseInt] skips at the start: tab,
    line feed, vertical tab, form feed, carriage return, space and the
    no-break space U+00A0. *)
Definition is_whitespace (c : ascii) : bool :=
  let n := N_of_ascii c in
  ((9 <=? n) && (n <=? 13) || (n =? 32) || (n =? 160))%N.

Fixpoint skip_whitespace (s : string) : string :=
  match s with
  | String c s' => if is_whitespace c then skip_whitespace s' else s
  | EmptyString => s
  end.

(** [parseInt(s)] with no radix argument: leading white space, an optional
    sign, an optional 0x or 0X prefix that selects radix 16, then the
    longest prefix of digits; NaN when there is no digit, else the double
    nearest to the integer read. *)
Definition parseInt (s : string) : number :=
  let s1 := skip_whitespace s in
  let '(negative, s2) :=
    match s1 with
    | String "-" r => (true, r)
    | String "+" r => (false, r)
    | _ => (false, s1)
    end in
  let '(radix, s3) :=
    match s2 with
    | String "0" (String "x" r) => (16%N, r)
    | String "0" (String "X" r) => (16%N, r)
    | _ => (10%N, s2)
    end in
  match parse_digits radix s3 None with
  | None => NaN
  | Some n => Num (double (inject_Z (if negative then - Z.of_N n else Z.of_N n)))
  end.

(** [x.toFixed(2)] for a number of magnitude below 10^21 (from there on
    JavaScript prints the exponent notation of [String(x)]): the sign,
    then the integer nearest to 100 |x| (the larger one on a tie) printed
    with a point before its last two digits. *)
Definition toFixed2 (x : Q) : string :=
  let negative := Z.ltb (Qnum x) 0 in
  let n := Z.to_N (Qfloor (Qabs x * 100 + (1 # 2))) in
  let cents := (n mod 100)%N in
  (if negative then "-" else "") +:+
  string_of_N (n / 100) +:+ "." +:+
  string_of_N (cents / 10) +:+ string_of_N (cents mod 10).

End JS.

(** ** generateCharts and generatePDF: timeline, status codes, payload *)

Module Charts.
Import JS.

(** [(a, b) => parseInt(a) - parseInt(b)] is positive. *)
Definition later_key (a b : string) : bool :=
  gt_zero (sub (parseInt a) (parseInt b)).

(** The two arrays the timeline is collected in. *)
Record Timeline := { timeLabels : list string; timelineData : list value }.

Definition no_timeline : Timeline := {| timeLabels := []; timelineData := [] |}.

(** [timeKeys.forEach(key => { timelineData.push(o[key]);
                              timeLabels.push(`${key}s`) })]. *)
Definition push_keys (o : value) (timeKeys : list string) : completion Timeline :=
  samples ← traverse (fun key => get o key) timeKeys;
  Normal {| timeLabels := map (fun key => key +:+ "s") timeKeys;
            timelineData := samples |}.

(** The first two strategies: the per-second counts attached by runTest,
    else numeric keys of [result.requests]. *)
Definition sampled_timeline (result : value) : completion Timeline :=
  requestsTimeline ← get result "requestsTimeline";
  keys ← (if truthy requestsTimeline then Object_keys requestsTimeline else Normal []);
  if truthy requestsTimeline && Nat.ltb 0 (length keys) then
    push_keys requestsTimeline (Array_sort later_key keys)
  else
    requests ← get result "requests";
    if truthy requests && typeof_object requests then
      keys ← Object_keys requests;
      let timeKeys :=
        Array_sort later_key
          (List.filter (fun key => negb (isNaN (parseInt key))) keys) in
      if Nat.ltb 0 (length timeKeys) then push_keys requests timeKeys
      else Normal no_timeline
    else Normal no_timeline.

(** generateCharts has the one parameter [result]; neither its locals nor
    the declarations of the module (express, autocannon, fs, PDFDocument,
    path, ChartJSNodeCanvas, args, configPath, app, port and the
    functions) bind [config], so reading it throws. *)
Definition config_identifier : completion value := Throw (ReferenceError "config").

(** [result.duration || config.duration || 30]. *)
Definition fallback_duration (result : value) : completion value :=
  d ← get result "duration";
  if truthy d then Normal d else
  config ← config_identifier;
  d' ← get config "duration";
  if truthy d' then Normal d' else Normal (of_Z 30).

(** The number of turns of [for (let i = 1; i <= duration; i++)], for a
    duration below 2^32: an array holds at most 2^32 - 1 elements, and
    from 2^53 on [i++] no longer advances. *)
Definition turns (duration : value) : nat :=
  match ToNumber duration with
  | Num q => Z.to_nat (Math_floor q)
  | NaN => 0
  end.

(** The fallback: one entry [result.requests.average] per second. *)
Definition fallback_timeline (result : value) : completion Timeline :=
  duration ← fallback_duration result;
  entries ← traverse (fun i =>
      requests ← get result "requests";
      average ← get requests "average";
      Normal (string_of_N (N.of_nat i) +:+ "s", average))
    (seq 1 (turns duration));
  Normal {| timeLabels := map fst entries; timelineData := map snd entries |}.

(** The timeline of the requests chart. *)
Definition timeline (result : value) : completion Timeline :=
  sampled ← sampled_timeline result;
  if Nat.eqb (length (timelineData sampled)) 0 then fallback_timeline result
  else Normal sampled.

(** The data of the status-code pie chart. *)
Record PieChart := { pie_labels : list string; pie_data : list value }.

(** [let statusCodesChart = null; if (result.statusCodeStats &&
    Object.keys(result.statusCodeStats).length > 0) ...]. *)
Definition statusCodesChart (result : value) : completion (option PieChart) :=
  stats ← get result "statusCodeStats";
  keys ← (if truthy stats then Object_keys stats else Normal []);
  if truthy stats && Nat.ltb 0 (length keys) then
    labels ← Object_keys stats;
    values ← Object_values stats;
    Normal (Some {| pie_labels := labels; pie_data := values |})
  else Normal None.

(** The chart descriptions generateCharts hands to the renderer; the
    image [charts.statusCodes] exists when [statusCodes] is not [None]. *)
Record ChartSet := {
  latency_data : list value;
  requests_chart : Timeline;
  statusCodes : option PieChart }.

Definition generateCharts (result : value) : completion ChartSet :=
  latency ← get result "latency";
  lmin ← get latency "min";
  laverage ← get latency "average";
  lmax ← get latency "max";
  lstddev ← get latency "stddev";
  tl ← timeline result;
  pie ← statusCodesChart result;
  Normal {| latency_data := [lmin; laverage; lmax; lstddev];
            requests_chart := tl; statusCodes := pie |}.

(** What generatePDF writes from the result, in order: lines of text
    and chart images.  [Line prefix v suffix] is a template literal that
    prints the value [v] as it is.  Positions and page breaks depend on
    the font metrics of pdfkit and are left out, and with them the
    headings "Test Results Summary (continued)". *)
Inductive image : Type :=
| LatencyImage (data : list value)
| RequestsImage (chart : Timeline)
| StatusCodesImage (chart : PieChart).

Inductive item : Type :=
| Text (s : string)
| Line (prefix : string) (v : value) (suffix : string)
| Image (i : image).

(** [v.toFixed(2)]: only a number has the method. *)
Definition toFixed (v : value) : completion string :=
  match v with
  | VNumber (Num q) => Normal (toFixed2 q)
  | VNumber NaN => Normal "NaN"
  | _ => Throw TypeError
  end.

(** [(v / d).toFixed(2)]. *)
Definition quotient_toFixed (v : value) (d : Q) : string :=
  match ToNumber v with
  | Num q => toFixed2 (q / d)
  | NaN => "NaN"
  end.

(** The summary: the three charts, the third [if (charts.statusCodes)]. *)
Definition summary (charts : ChartSet) : list item :=
  [Text "Test Results Summary";
   Image (LatencyImage (latency_data charts));
   Image (RequestsImage (requests_chart charts))] ++
  match statusCodes charts with
  | Some chart => [Image (StatusCodesImage chart)]
  | None => []
  end.

(** The sections Latency, Requests and Throughput of the detailed
    results. *)
Definition measured_sections (result : value) : completion (list item) :=
  latency ← get result "latency";
  lmin ← get latency "min";
  lmax ← get latency "max";
  laverage ← get latency "average";
  average ← toFixed laverage;
  lstddev ← get latency "stddev";
  stddev ← toFixed lstddev;
  p1 ← get latency "p1";
  p50 ← get latency "p50";
  p75 ← get latency "p75";
  p90 ← get latency "p90";
  p99 ← get latency "p99";
  requests ← get result "requests";
  total ← get requests "total";
  raverage ← get requests "average";
  perSecond ← toFixed raverage;
  throughput ← get result "throughput";
  ttotal ← get throughput "total";
  taverage ← get throughput "average";
  Normal
    ([Text "Detailed Test Results"; Text "Latency:";
      Line "Min: " lmin " ms"; Line "Max: " lmax " ms";
      Text ("Average: " +:+ average +:+ " ms");
      Text ("Std Dev: " +:+ stddev +:+ " ms")] ++
     match p1 with
     | VUndefined => []
     | _ => [Text "Percentiles:"; Line "p1: " p1 " ms"; Line "p50: " p50 " ms";
             Line "p75: " p75 " ms"; Line "p90: " p90 " ms"; Line "p99: " p99 " ms"]
     end ++
     [Text "Requests:"; Line "Total: " total "";
      Text ("Average: " +:+ perSecond +:+ " req/sec");
      Text "Throughput:";
      Text ("Total: " +:+ quotient_toFixed ttotal (1024 * 1024) +:+ " MB");
      Text ("Average: " +:+ quotient_toFixed taverage 1024 +:+ " KB/sec")])%list.

(** The section "Errors and Status Codes", the last one:
    [`Errors: ${result.errors || 0}`], then
    [if (result.statusCodeStats) { ... }]. *)
Definition errors_section (result : value) : completion (list item) :=
  errors ← get result "errors";
  stats ← get result "statusCodeStats";
  rows ← (if truthy stats
           then (entries ← Object_entries stats;
                 Normal (Text "Status Codes:" ::
                         map (fun e => Line ("  " +:+ fst e +:+ ": ") (snd e) "")
                           entries))
           else Normal []);
  Normal (Text "Errors and Status Codes:" ::
          Line "Errors: " (if truthy errors then errors else of_Z 0) "" :: rows).

(** The part of the document generatePDF computes from the result. *)
Definition result_pages (result : value) : completion (list item) :=
  charts ← generateCharts result;
  sections ← measured_sections result;
  last_section ← errors_section result;
  Normal (summary charts ++ sections ++ last_section)%list.

(** The payload preview: [payloadText] is
    [JSON.stringify(config.payload, null, 2)]. *)
Definition payloadPreview (payloadText : string) : string :=
  if Nat.ltb 500 (String.length payloadText)
  then substring_to 497 payloadText +:+ "..."
  else payloadText.

(** [if (config.payload) { ...; doc.text(payloadText) }], the serializer
    being the engine's. *)
Definition payload_block (stringify : value -> string) (payload : value) : list string :=
  if truthy payload
  then ["Payload:"; payloadPreview (stringify payload)]
  else [].

(** The keys of a per-second mapping: the property keys that whole
    seconds give, [String(n)] for an integer [n] that a number holds
    exactly. *)
Definition second_key (key : string) : Prop :=
  exists n, (n < 2 ^ 53)%N /\ key = string_of_N n.

Definition per_second_mapping (props : list (string * value)) : Prop :=
  NoDup (map fst props) /\ Forall second_key (map fst props).

(** The elapsed second a key stands for. *)
Definition key_second (key : string) : N :=
  default 0%N (parse_digits 10 key None).

Definition seconds_le (a b : string) : Prop := (key_second a <= key_second b)%N.

(** Setting a property, [o[k] = v].  [Object.keys] lists the properties
    whose key is an array index (the numeral of an integer below
    2^32 - 1) first, in ascending order of the index, and then the other
    properties in the order they were created: a property that exists
    keeps its place and takes the new value, a new one is put where that
    order has it. *)
Definition array_index (key : string) : option N :=
  match parse_digits 10 key None with
  | Some n =>
      if String.eqb (string_of_N n) key && (n <? 2 ^ 32 - 1)%N then Some n else None
  | None => None
  end.

(** Whether a new property [k] is listed before the property [k']. *)
Definition listed_before (k k' : string) : bool :=
  match array_index k, array_index k' with
  | Some n, Some n' => (n <? n')%N
  | Some _, None => true
  | None, _ => false
  end.

Fixpoint update_property (k : string) (v : value) (props : list (string * value))
  : list (string * value) :=
  match props with
  | [] => []
  | (k', v') :: rest =>
      if String.eqb k k' then (k, v) :: rest else (k', v') :: update_property k v rest
  end.

Fixpoint create_property (k : string) (v : value) (props : list (string * value))
  : list (string * value) :=
  match props with
  | [] => [(k, v)]
  | (k', v') :: rest =>
      if listed_before k k' then (k, v) :: props
      else (k', v') :: create_property k v rest
  end.

Definition set_property (k : string) (v : value) (props : list (string * value))
  : list (string * value) :=
  match assoc k props with
  | Some _ => update_property k v props
  | None => create_property k v props
  end.

(** The counter of runTest: the response handler, run once per response
    at [elapsedSeconds] whole seconds, on the object requestsPerSecond. *)
Definition increment (v : value) : value :=
  match ToNumber v with
  | Num q => VNumber (Num (q + 1))
  | NaN => VNumber NaN
  end.

Definition on_response (elapsedSeconds : N) (requestsPerSecond : list (string * value))
  : list (string * value) :=
  let key := string_of_N elapsedSeconds in
  let initialised :=
    if truthy (default VUndefined (assoc key requestsPerSecond))
    then requestsPerSecond
    else set_property key (of_Z 0) requestsPerSecond in
  set_property key (increment (default VUndefined (assoc key initialised))) initialised.

(** The count the mapping holds for a second: no property for 0, the
    number [c] otherwise. *)
Definition holds_count (props : list (string * value)) (n : N) (c : nat) : Prop :=
  match c with
  | O => assoc (string_of_N n) props = None
  | S _ =>
      exists q, assoc (string_of_N n) props = Some (VNumber (Num q)) /\
                (q == inject_Z (Z.of_nat c))%Q
  end.

(** [key => !isNaN(parseInt(key))]. *)
Definition numeric_key (key : string) : bool := negb (isNaN (parseInt key)).

(** An ASCII letter, as the names of the statistics start with one
    (average, mean, stddev, min, max, total, sent, p50, ...). *)
Definition is_letter (c : ascii) : bool :=
  let n := N_of_ascii c in
  ((97 <=? n) && (n <=? 122) || (65 <=? n) && (n <=? 90))%N.

(** The mapping after the responses of a run, given the whole second
    each one arrived in. *)
Definition count_responses (arrivals : list N) : list (string * value) :=
  foldl (fun requestsPerSecond second => on_response second requestsPerSecond)
    [] arrivals.

End Charts.

(** ** The page cursor of the PDF document *)

Module Layout.
Import JS.
Local Open Scope Q_scope.

(** Page size and margins of a document, in points. *)
Record Page := {
  page_width : Q; page_height : Q;
  margin_top : Q; margin_bottom : Q; margin_left : Q; margin_right : Q }.

(** [new PDFDocument({ margin: 50, size: "A4" })]: both report functions
    create their document with these options. *)
Definition A4 : Page :=
  {| page_width := 59528 # 100; page_height := 84189 # 100;
     margin_top := 50; margin_bottom := 50; margin_left := 50; margin_right := 50 |}.

(** The document as far as the cursor is concerned: the current page
    ([doc.page]), the number of pages added so far, and [doc.y]. *)
Record Doc := { page : Page; page_count : nat; y : Q }.

(** [doc.addPage()] of pdfkit: a new page with the options of the
    document becomes the current page and the cursor goes to its top
    margin. *)
Definition addPage (doc : Doc) : Doc :=
  {| page := page doc; page_count := S (page_count doc);
     y := margin_top (page doc) |}.

(** [doc.page.height - doc.page.margins.bottom - doc.y]. *)
Definition availableSpace (doc : Doc) : Q :=
  page_height (page doc) - margin_bottom (page doc) - y doc.

(** The closure checkAndAddPage of generatePDF and of
    generateComparisonReport (the two copies are the same code). *)
Definition checkAndAddPage (requiredHeight : Q) (doc : Doc) : Doc * bool :=
  let currentY := y doc in
  let availableSpace :=
    page_height (page doc) - margin_bottom (page doc) - currentY in
  if negb (Qle_bool requiredHeight availableSpace) then (addPage doc, true)
  else (doc, false).

End Layout.

(** ** generateComparisonReport: ranking, colours, callouts, table batches *)

Module Comparison.
Import JS.

(** The fields of a completed measurement that the comparison reads. *)
Record Latency := {
  lat_min : Q; lat_average : Q; lat_max : Q;
  lat_p90 : option Q; lat_p99 : option Q }.

Record Requests := { req_average : Q; req_total : Q }.

Record MeasurementResult := {
  latency : Latency;
  requests : Requests;
  throughput_average : Q;
  errors : Q }.

(** An element of testResults: [{ name, result }]. *)
Record Scenario := { name : string; result : MeasurementResult }.

(** *** Colour gradient *)

(** A colour string [rgba(r, g, b, a)], kept by its channels; [css] is the
    text the template literal produces. *)
Record rgba := { red : Z; green : Z; blue : Z; alpha : string }.

Definition css (c : rgba) : string :=
  "rgba(" +:+ string_of_Z (red c) +:+ ", " +:+ string_of_Z (green c) +:+ ", " +:+
  string_of_Z (blue c) +:+ ", " +:+ alpha c +:+ ")".

Local Open Scope Q_scope.

Definition Qltb (x y : Q) : bool := negb (Qle_bool y x).

(** [count - 1 || 1]. *)
Definition ratio_divisor (count : nat) : Z :=
  let d := (Z.of_nat count - 1)%Z in
  if (d =? 0)%Z then 1%Z else d.

(** The body of the loop of generateColorGradient at index [i]; every
    operation is the one of doubles. *)
Definition gradient_step (count i : nat) : rgba :=
  let ratio := fdiv (inject_Z (Z.of_nat i)) (inject_Z (ratio_divisor count)) in
  if Qltb ratio (1 # 2) then
    let greenValue := fadd 75 (fmul (fsub 255 75) (fmul ratio 2)) in
    {| red := 75; green := Math_round greenValue; blue := 192; alpha := "0.6" |}
  else
    let greenValue := fsub 255 (fmul 255 (fmul (fsub ratio (1 # 2)) 2)) in
    {| red := 255; green := Math_round greenValue;
       blue := Math_round (fmul greenValue (1 # 2)); alpha := "0.6" |}.

(** [for (let i = 0; i < count; i++) colors.push(...)]. *)
Definition generateColorGradient (count : nat) : list rgba :=
  fold_left (fun colors i => (colors ++ [gradient_step count i])%list) (seq 0 count) [].

(** [color.replace("0.6", "1")]: the channels are printed as integers, so
    the first occurrence of 0.6 in the text is the opacity. *)
Definition opaque (c : rgba) : rgba :=
  {| red := red c; green := green c; blue := blue c;
     alpha := if String.eqb (alpha c) "0.6" then "1" else alpha c |}.

(** The gradient as the specification words it (section 4.3), read in
    the arithmetic of doubles: the ratio is [i / max(N-1, 1)], and in the
    upper half the blue channel is half of the green channel [g]. *)
Definition spec_gradient_color (N i : nat) : rgba :=
  let ratio := fdiv (inject_Z (Z.of_nat i)) (inject_Z (Z.max (Z.of_nat N - 1) 1)) in
  if Qltb ratio (1 # 2) then
    {| red := 75; green := Math_round (fadd 75 (fmul 180 (fmul 2 ratio))); blue := 192;
       alpha := "0.6" |}
  else
    let g := Math_round (fsub 255 (fmul 255 (fmul 2 (fsub ratio (1 # 2))))) in
    {| red := 255; green := g; blue := Math_round (fmul (inject_Z g) (1 # 2));
       alpha := "0.6" |}.

(** The same with the blue channel taken from the green value before it
    is rounded to an integer. *)
Definition spec_gradient_color_unrounded (N i : nat) : rgba :=
  let ratio := fdiv (inject_Z (Z.of_nat i)) (inject_Z (Z.max (Z.of_nat N - 1) 1)) in
  if Qltb ratio (1 # 2) then
    {| red := 75; green := Math_round (fadd 75 (fmul 180 (fmul 2 ratio))); blue := 192;
       alpha := "0.6" |}
  else
    let g := fsub 255 (fmul 255 (fmul 2 (fsub ratio (1 # 2)))) in
    {| red := 255; green := Math_round g; blue := Math_round (fmul g (1 # 2));
       alpha := "0.6" |}.

(** The formula of section 4.3 read over the rationals, without the
    rounding of doubles. *)
Definition spec_gradient_color_exact (N i : nat) : rgba :=
  let ratio := inject_Z (Z.of_nat i) / inject_Z (Z.max (Z.of_nat N - 1) 1) in
  if Qltb ratio (1 # 2) then
    {| red := 75; green := Math_round (75 + 180 * (2 * ratio)); blue := 192;
       alpha := "0.6" |}
  else
    let g := Math_round (255 - 255 * (2 * (ratio - (1 # 2)))) in
    {| red := 255; green := g; blue := Math_round (inject_Z g * (1 # 2));
       alpha := "0.6" |}.

Local Close Scope Q_scope.

(** Squared distance of a colour to pure green (0, 255, 0) in RGB. *)
Definition green_distance (c : rgba) : Z :=
  (red c * red c + (255 - green c) * (255 - green c) + blue c * blue c)%Z.

Definition greener (c1 c2 : rgba) : Prop :=
  (green_distance c1 < green_distance c2)%Z.

(** A colour whose channels are bytes. *)
Definition channels_in_range (c : rgba) : Prop :=
  (0 <= red c <= 255)%Z /\ (0 <= green c <= 255)%Z /\ (0 <= blue c <= 255)%Z.

(** *** Orderings *)

Local Open Scope Q_scope.

(** [(a, b) => a.result.latency.average - b.result.latency.average] is
    positive. *)
Definition later_by_latency (a b : Scenario) : bool :=
  Qltb 0 (lat_average (latency (result a)) - lat_average (latency (result b))).

(** [(a, b) => b.result.requests.average - a.result.requests.average] is
    positive. *)
Definition later_by_throughput (a b : Scenario) : bool :=
  Qltb 0 (req_average (requests (result b)) - req_average (requests (result a))).

(** The two orders the comparators stand for. *)
Definition ascending_latency (a b : Scenario) : Prop :=
  lat_average (latency (result a)) <= lat_average (latency (result b)).

Definition descending_throughput (a b : Scenario) : Prop :=
  req_average (requests (result b)) <= req_average (requests (result a)).

(** Descending throughput, and ascending latency among equal
    throughputs. *)
Definition throughput_then_latency (a b : Scenario) : Prop :=
  req_average (requests (result b)) < req_average (requests (result a)) \/
  (req_average (requests (result b)) == req_average (requests (result a)) /\
   lat_average (latency (result a)) <= lat_average (latency (result b))).

Local Close Scope Q_scope.

(** [getShortenedName(name, maxLength = 15)]. *)
Definition getShortenedName (name : string) (maxLength : nat) : string :=
  if Nat.ltb maxLength (String.length name)
  then substring_to (maxLength - 3) name +:+ "..."
  else name.

(** The tick callback of both charts. *)
Definition tick_label (label : string) : string :=
  if Nat.ltb 15 (String.length label)
  then substring_to 12 label +:+ "..."
  else label.

(** The data of a horizontal bar chart. *)
Record BarChart := {
  labels : list string;
  data : list Q;
  backgroundColor : list rgba;
  borderColor : list rgba }.

(** The callouts read element 0 of an array; on an empty array that is
    undefined and reading its name throws. *)
Definition bestLatencyCallout (testResults : list Scenario) : completion string :=
  match testResults with
  | [] => Throw TypeError
  | t :: _ =>
      Normal ("Best Latency: " +:+ getShortenedName (name t) 25 +:+ " (" +:+
              toFixed2 (lat_average (latency (result t))) +:+ " ms)")
  end.

Definition bestThroughputCallout (sortedByThroughput : list Scenario) : completion string :=
  match sortedByThroughput with
  | [] => Throw TypeError
  | t :: _ =>
      Normal ("Best Throughput: " +:+ getShortenedName (name t) 25 +:+ " (" +:+
              toFixed2 (req_average (requests (result t))) +:+ " req/sec)")
  end.

(** What the specification says of the two parts of a callout, in terms
    of the Standard Library alone.  A name is shown as it is up to
    [maxLength] characters, and by its first [maxLength - 3] characters
    and three dots beyond. *)
Definition spec_shortened_name (maxLength : nat) (name shown : string) : Prop :=
  (String.length name <= maxLength /\ shown = name) \/
  (maxLength < String.length name /\
   shown = String.substring 0 (maxLength - 3) name +:+ "...").

(** The decimal numeral of a natural number, as the Standard Library
    prints it. *)
Definition decimal_numeral (n : N) : string :=
  DecimalString.NilZero.string_of_uint (N.to_uint n).

(** A number rendered to two decimal places: [text] is the numeral of
    [n / 100], a point and the two digits of [n mod 100], where [n] is
    the integer nearest to 100 |x| (the larger one of two as near), after
    a minus sign when [x] is negative. *)
Definition spec_two_decimals (x : Q) (text : string) : Prop :=
  exists n : N,
    (inject_Z (Z.of_N n) - (1 # 2) <= Qabs x * 100)%Q /\
    (Qabs x * 100 < inject_Z (Z.of_N n) + (1 # 2))%Q /\
    text =
      (if Qlt_le_dec x 0 then "-" else "") +:+
      decimal_numeral (n / 100) +:+ "." +:+
      decimal_numeral (n mod 100 / 10) +:+ decimal_numeral (n mod 10).

(** *** Table batches *)

Section Batches.
Context {A : Type}.

(** [a.slice(i, j)] for naturals [i <= j]. *)
Definition slice (a : list A) (i j : nat) : list A := take (j - i) (drop i a).

(** [for (let i = 0; i < testResults.length; i += maxTests)
       batches.push(testResults.slice(i, i + maxTests))].
    The loop does not end when maxTests is not positive; [fuel] bounds
    the number of iterations and [None] is "out of fuel". *)
Fixpoint batch_loop (fuel : nat) (testResults : list A) (maxTests : nat)
    (i : nat) (batches : list (list A)) : option (list (list A)) :=
  match fuel with
  | O => None
  | S fuel' =>
      if Nat.ltb i (length testResults)
      then batch_loop fuel' testResults maxTests (i + maxTests)
             (batches ++ [slice testResults i (i + maxTests)])%list
      else Some batches
  end.

End Batches.

Local Open Scope Q_scope.

(** [pageWidth - metricColWidth]. *)
Definition remainingWidth (pg : Layout.Page) : Q :=
  let pageWidth :=
    Layout.page_width pg - (Layout.margin_left pg + Layout.margin_right pg) in
  let metricColWidth := Qmin 150 (pageWidth * (3 # 10)) in
  pageWidth - metricColWidth.

(** [Math.min(testResults.length, Math.floor(remainingWidth / 70))]. *)
Definition maxTests_for (count : nat) (remaining : Q) : Z :=
  Z.min (Z.of_nat count) (Math_floor (remaining / 70)).

Local Close Scope Q_scope.

(** The batches of the detail table; a maxTests that is not positive
    never advances [i], which [Z.to_nat] keeps. *)
Definition tableBatches (fuel : nat) (testResults : list Scenario) (remaining : Q)
  : option (list (list Scenario)) :=
  batch_loop fuel testResults
    (Z.to_nat (maxTests_for (length testResults) remaining)) 0 [].

(** *** The report, over the store of arrays *)

Definition loc := positive.

(** The arrays of scenario entries that are alive, by reference. *)
Abbreviation Store := (gmap loc (list Scenario)).

Record Report := {
  latencyCompChart : BarChart;
  reqCompChart : BarChart;
  sortedByThroughput_ref : loc;
  bestLatency : string;
  bestThroughput : string;
  batches : list (list Scenario) }.

Inductive outcome : Type :=
| NoReport
| Threw (e : error)
| OutOfFuel
| Reported (r : Report).

Definition report_of (o : outcome) : option Report :=
  match o with Reported r => Some r | _ => None end.

Definition generateComparisonReport (pg : Layout.Page) (testResults : loc)
    (st : Store) : Store * outcome :=
  match st !! testResults with
  | None => (st, Threw TypeError)
  | Some before =>
      if Nat.leb (length before) 1 then (st, NoReport) else
      (* testResults.sort(...) : the array itself is reordered *)
      let sorted := Array_sort later_by_latency before in
      let st1 := <[testResults := sorted]> st in
      let labels := map name sorted in
      let avgLatencyData := map (fun t => lat_average (latency (result t))) sorted in
      let bgColors := generateColorGradient (length sorted) in
      let borderColors := map opaque bgColors in
      let latencyCompChart :=
        {| labels := labels; data := avgLatencyData;
           backgroundColor := bgColors; borderColor := borderColors |} in
      (* [...testResults].sort(...) : a new array *)
      let copy := fresh (dom st1) in
      let sortedByThroughput := Array_sort later_by_throughput sorted in
      let st2 := <[copy := sortedByThroughput]> st1 in
      let reqCompChart :=
        {| labels := map name sortedByThroughput;
           data := map (fun t => req_average (requests (result t))) sortedByThroughput;
           backgroundColor := reverse (generateColorGradient (length sorted));
           borderColor := reverse borderColors |} in
      match bestLatencyCallout sorted, bestThroughputCallout sortedByThroughput with
      | Normal bl, Normal bt =>
          match tableBatches (S (length sorted)) sorted (remainingWidth pg) with
          | Some bs =>
              (st2, Reported {| latencyCompChart := latencyCompChart;
                                reqCompChart := reqCompChart;
                                sortedByThroughput_ref := copy;
                                bestLatency := bl; bestThroughput := bt;
                                batches := bs |})
          | None => (st2, OutOfFuel)
          end
      | Throw e, _ | _, Throw e => (st2, Threw e)
      end
  end.

(** The part of runTests that accumulates the completed scenarios and
    runs the comparison: [runs] are the entries in execution order. *)
Definition push (a : loc) (t : Scenario) (st : Store) : Store :=
  alter (fun l => (l ++ [t])%list) a st.

Definition runTests_compare (pg : Layout.Page) (runs : list Scenario) (st : Store)
  : loc * (Store * outcome) :=
  let testResults := fresh (dom st) in
  let st0 := <[testResults := []]> st in
  let st1 := foldl (fun st t => push testResults t st) st0 runs in
  (testResults,
   if Nat.ltb 1 (length (default [] (st1 !! testResults)))
   then generateComparisonReport pg testResults st1
   else (st1, NoReport)).

End Comparison.

(** ** File names of the results and the list of reports *)

Module Files.
Import JS.

(** A code unit that [/[^a-z0-9]/gi] does not match: an ASCII letter or
    digit (without the u flag the ignore-case match never makes a
    non-ASCII code unit equal to an ASCII one). *)
Definition alphanumeric (c : ascii) : bool :=
  let n := N_of_ascii c in
  ((48 <=? n) && (n <=? 57) || (97 <=? n) && (n <=? 122) ||
   (65 <=? n) && (n <=? 90))%N.

(** [name.replace(/[^a-z0-9]/gi, "-")]. *)
Fixpoint sanitize (name : string) : string :=
  match name with
  | EmptyString => EmptyString
  | String c rest =>
      String (if alphanumeric c then c else "-"%char) (sanitize rest)
  end.

(** [`${name.replace(/[^a-z0-9]/gi, "-")}-${Date.now()}.json`] of
    saveTestResults and the same with [.pdf] of runTests; [now] is the
    value of [Date.now()]. *)
Definition results_file_name (name : string) (now : N) : string :=
  sanitize name +:+ "-" +:+ string_of_N now +:+ ".json".

Definition report_file_name (name : string) (now : N) : string :=
  sanitize name +:+ "-" +:+ string_of_N now +:+ ".pdf".

(** The code units a file name is made of. *)
Fixpoint chars_all (P : ascii -> bool) (s : string) : bool :=
  match s with
  | EmptyString => true
  | String c rest => P c && chars_all P rest
  end.

Definition file_name_char (c : ascii) : bool :=
  alphanumeric c || Ascii.eqb c "-" || Ascii.eqb c ".".

(** [s.endsWith(suffix)]. *)
Definition endsWith (s suffix : string) : bool :=
  Nat.leb (String.length suffix) (String.length s) &&
  String.eqb
    (String.substring (String.length s - String.length suffix)
       (String.length suffix) s)
    suffix.

(** A name of [fs.readdirSync(outputDir)] with the [ctime] of its
    [fs.statSync], in milliseconds. *)
Record DirEntry := { entry_name : string; entry_ctime : Z }.

(** An element of the list the route /reports answers with. *)
Record ReportLink := { link_name : string; link_path : string; created : Z }.

(** [(a, b) => b.created - a.created] is positive. *)
Definition later_created (a b : ReportLink) : bool :=
  Z.ltb 0 (created b - created a).

(** [fs.readdirSync(outputDir).filter(f => f.endsWith(".pdf")).map(...)
      .sort((a, b) => b.created - a.created)]. *)
Definition report_links (entries : list DirEntry) : list ReportLink :=
  Array_sort later_created
    (map (fun f => {| link_name := entry_name f;
                      link_path := "/reports/" +:+ entry_name f;
                      created := entry_ctime f |})
       (List.filter (fun f => endsWith (entry_name f) ".pdf") entries)).

(** The order of the list: newest first. *)
Definition newest_first (a b : ReportLink) : Prop := (created b <= created a)%Z.

Inductive reports_response : Type :=
| NoReportsFound
| Reports (reports : list ReportLink).

(** The handler of /reports; [None] is a reports directory that does not
    exist. *)
Definition list_reports (dir : option (list DirEntry)) : reports_response :=
  match dir with
  | None => NoReportsFound
  | Some entries => Reports (report_links entries)
  end.

End Files.

(** ** The scenarios of runTests *)

Module Scenarios.
Import JS.

(** What an object spread copies from its operand: the own properties of
    an object, nothing from undefined, null, a boolean or a number. *)
Definition spread_source (v : value) : list (string * value) :=
  match v with
  | VObject props => props
  | _ => []
  end.

(** [{ ...props, ...source }]: each property of the source is set in
    turn. *)
Definition spread (props : list (string * value)) (source : value)
  : list (string * value) :=
  foldl (fun acc kv => Charts.set_property (fst kv) (snd kv) acc) props
    (spread_source source).

(** [{ ...defaultSettings, ...scenario,
       headers: { ...defaultSettings.headers, ...scenario.headers } }]. *)
Definition mergedConfig (defaultSettings scenario : value) : completion value :=
  default_headers ← get defaultSettings "headers";
  scenario_headers ← get scenario "headers";
  Normal (VObject
    (Charts.set_property "headers"
       (VObject (spread (spread [] default_headers) scenario_headers))
       (spread (spread [] defaultSettings) scenario))).

End Scenarios.

(** ** The detail table of the comparison report *)

Module Table.
Import JS Layout.
Local Open Scope Q_scope.

(** [doc.page.width - (doc.page.margins.left + doc.page.margins.right)]. *)
Definition pageWidth (pg : Page) : Q :=
  page_width pg - (margin_left pg + margin_right pg).

(** [Math.min(150, pageWidth * 0.3)]. *)
Definition metricColWidth (pg : Page) : Q := Qmin 150 (pageWidth pg * (3 # 10)).

(** [remainingWidth / maxTests], for [count] scenarios. *)
Definition dataColWidth (pg : Page) (count : nat) : Q :=
  Comparison.remainingWidth pg /
  inject_Z (Comparison.maxTests_for count (Comparison.remainingWidth pg)).

(** The x range of the table of a batch:
    [margins.left + metricColWidth + dataColWidth * batch.length]. *)
Definition table_right (pg : Page) (count columns : nat) : Q :=
  margin_left pg + metricColWidth pg + dataColWidth pg count * inject_Z (Z.of_nat columns).

Definition metrics : list string :=
  ["Min Latency (ms)"; "Avg Latency (ms)"; "Max Latency (ms)"; "P90 Latency (ms)";
   "P99 Latency (ms)"; "Req/sec"; "Total Requests"; "Errors"; "Throughput (KB/s)"]%string.

Definition rowHeight : Q := 20.

(** What the row loop puts on the pages, in order, with the [rowY] it is
    put at. *)
Inductive mark : Type :=
| NewPage
| Header (rowY : Q)
| Separator (rowY : Q)
| Shade (rowY : Q)
| Row (metric : string) (rowY : Q).

Record table_state := { doc : Doc; rowY : Q; marks : list mark }.

(** The header of a batch and its separator line: [rowY += 15], a line,
    [rowY += 10]. *)
Definition draw_header (st : table_state) : table_state :=
  {| doc := doc st; rowY := rowY st + 15 + 10;
     marks := (marks st ++ [Header (rowY st); Separator (rowY st + 15)])%list |}.

(** One turn of [metrics.forEach((metric, idx) => ...)]. *)
Definition draw_row (st : table_state) (turn : nat * string) : table_state :=
  let '(idx, metric) := turn in
  let st1 :=
    if negb (Qle_bool (rowY st + rowHeight)
               (page_height (page (doc st)) - margin_bottom (page (doc st))))
    then draw_header
           {| doc := addPage (doc st);
              rowY := margin_top (page (doc st)) + 30;
              marks := (marks st ++ [NewPage])%list |}
    else st in
  {| doc := doc st1; rowY := rowY st1 + rowHeight;
     marks := (marks st1 ++
               (if Nat.eqb (idx mod 2) 0 then [Shade (rowY st1 - 5)] else []) ++
               [Row metric (rowY st1)])%list |}.

(** The table of one batch, from [let rowY = doc.y + 10] on.  The page
    breaks are the ones of the loop; pdfkit's own page break for a text
    that starts below the bottom margin is not part of the embedding. *)
Definition draw_table (d : Doc) (rows : list string) : table_state :=
  foldl draw_row
    (draw_header {| doc := d; rowY := y d + 10; marks := [] |})
    (imap (fun idx metric => (idx, metric)) rows).

(** The metrics drawn, in the order of the marks. *)
Definition rows_of (ms : list mark) : list string :=
  omap (fun m => match m with Row metric _ => Some metric | _ => None end) ms.

(** A row that ends at or above the bottom margin. *)
Definition row_fits (pg : Page) (m : mark) : Prop :=
  match m with
  | Row _ rowY => rowY + rowHeight <= page_height pg - margin_bottom pg
  | _ => True
  end.

(** Every new page starts with the header, 30 below the top margin. *)
Definition header_after_break (pg : Page) (ms : list mark) : Prop :=
  forall i, ms !! i = Some NewPage ->
    exists rowY, ms !! S i = Some (Header rowY) /\ rowY == margin_top pg + 30.

(** The pages the row loop added. *)
Definition breaks (ms : list mark) : nat :=
  length (List.filter (fun m => match m with NewPage => true | _ => false end) ms).

End Table.

(** ** Sample inputs *)

Module Samples.
Import JS Comparison.

Definition scenario (nm : string) (avgLatency reqPerSec : Q) : Scenario :=
  {| name := nm;
     result :=
       {| latency := {| lat_min := 1; lat_average := avgLatency; lat_max := 100;
                        lat_p90 := None; lat_p99 := None |};
          requests := {| req_average := reqPerSec; req_total := reqPerSec * 30 |};
          throughput_average := 2048;
          errors := 0 |} |}.

(** The two scenarios of the end-to-end example of the specification. *)
Definition scenarioA : Scenario := scenario "A" 10 500.
Definition scenarioB : Scenario := scenario "B" 20 300.

(** Five scenarios, in execution order. *)
Definition five : list Scenario :=
  [scenario "login" 30 120; scenario "search" 12 410; scenario "cart" 45 80;
   scenario "home" 8 900; scenario "checkout" 20 200].

(** Measurement results as generateCharts receives them. *)
Definition latency_stats : value :=
  VObject [("average", VNumber (Num (1234 # 100))); ("stddev", VNumber (Num (31 # 10)));
           ("min", of_Z 1); ("max", of_Z 90)].

Definition request_stats : value :=
  VObject [("average", of_Z 100); ("total", of_Z 1000)].

Definition throughput_stats : value :=
  VObject [("average", of_Z 51200); ("total", of_Z 1048576)].

(** With the counts that runTest attaches. *)
Definition result_with_timeline : value :=
  VObject [("latency", latency_stats); ("requests", request_stats);
           ("duration", VNumber (Num (1003 # 100)));
           ("requestsTimeline",
            VObject [("0", of_Z 3); ("2", of_Z 5); ("10", of_Z 7)])].

(** Without samples, with the duration the load generator reports. *)
Definition result_with_duration : value :=
  VObject [("latency", latency_stats); ("requests", request_stats);
           ("duration", VNumber (Num (306 # 100)))].

(** Without samples and without a duration. *)
Definition result_without_duration : value :=
  VObject [("latency", latency_stats); ("requests", request_stats)].

(** With status-code statistics that are an empty mapping. *)
Definition result_empty_statusCodes : value :=
  VObject [("latency", latency_stats); ("requests", request_stats);
           ("throughput", throughput_stats);
           ("duration", of_Z 2); ("errors", of_Z 4);
           ("statusCodeStats", VObject [])].

(** With status codes 200 and 404. *)
Definition result_two_statusCodes : value :=
  VObject [("latency", latency_stats); ("requests", request_stats);
           ("throughput", throughput_stats);
           ("duration", of_Z 2);
           ("statusCodeStats", VObject [("200", of_Z 950); ("404", of_Z 50)])].

(** With a requestsTimeline whose keys are not seconds, and nothing
    else. *)
Definition result_with_named_keys : value :=
  VObject [("requestsTimeline",
            VObject [("warmup", of_Z 4); ("steady", of_Z 9)])].

(** With numeric keys among the statistics of requests, and no
    requestsTimeline. *)
Definition result_with_numbered_requests : value :=
  VObject [("latency", latency_stats);
           ("requests",
            VObject [("0", of_Z 3); ("1", of_Z 5); ("average", of_Z 4);
                     ("total", of_Z 8)])].

(** Default settings and a scenario of a configuration file; a header
    value is kept by a number that stands for its text. *)
Definition default_settings : list (string * value) :=
  [("connections", of_Z 10); ("duration", of_Z 30);
   ("headers", VObject [("accept", of_Z 1); ("authorization", of_Z 2)])].

Definition scenario_settings : list (string * value) :=
  [("duration", of_Z 5); ("headers", VObject [("authorization", of_Z 3)])].

(** A result whose latency has no average. *)
Definition result_without_latency_average : value :=
  VObject [("latency", VObject [("min", of_Z 1); ("max", of_Z 90);
                                ("stddev", VNumber (Num (31 # 10)))]);
           ("requests", request_stats); ("throughput", throughput_stats);
           ("duration", of_Z 2)].

(** A payload text of 501 characters. *)
Definition long_payload : string :=
  string_of_list_ascii (repeat "x"%char 501).

End Samples.

(** * Properties *)

Import JS Charts Layout Comparison.

(** ** Printing and reading numbers *)

Example string_of_N_ex : string_of_N 0 = "0" /\ string_of_N 1907 = "1907".
Proof. split; reflexivity. Qed.
Example parseInt_ex :
  parseInt "12" = Num 12 /\ parseInt " -7s" = Num (-7) /\ parseInt "0x1f" = Num 31 /\
  parseInt "p99" = NaN /\ parseInt "" = NaN /\ parseInt "01" = Num 1 /\
  parseInt (String (ascii_of_N 160) "7") = Num 7 /\
  parseInt "9007199254740993" = Num 9007199254740992.
Proof. repeat split; vm_compute; reflexivity. Qed.
Example toFixed2_ex :
  toFixed2 10 = "10.00" /\ toFixed2 (12345 # 1000) = "12.35" /\ toFixed2 (5 # 1000) = "0.01"
  /\ toFixed2 (-(1#4)) = "-0.25".
Proof. repeat split; reflexivity. Qed.

Example gradient_5 :
  map css (generateColorGradient 5) =
  ["rgba(75, 75, 192, 0.6)"; "rgba(75, 165, 192, 0.6)"; "rgba(255, 255, 128, 0.6)";
   "rgba(255, 128, 64, 0.6)"; "rgba(255, 0, 0, 0.6)"].
Proof. vm_compute. reflexivity. Qed.

(** [toFixed2] prints the integer nearest to [100 x] (the larger one on
    a tie) with its last two digits after the point. *)
Lemma toFixed2_nearest (x : Q) :
  (0 <= x)%Q ->
  exists n : N,
    toFixed2 x =
      string_of_N (n / 100) +:+ "." +:+
      string_of_N (n mod 100 / 10) +:+ string_of_N (n mod 100 mod 10) /\
    (n mod 100 / 10 < 10)%N /\ (n mod 100 mod 10 < 10)%N /\
    (inject_Z (Z.of_N n) - (1 # 2) <= x * 100)%Q /\
    (x * 100 < inject_Z (Z.of_N n) + (1 # 2))%Q.
Proof.
  intros Hx.
  assert (Qabs x == x)%Q as Habs by (by apply Qabs_pos).
  assert (Qfloor (Qabs x * 100 + (1 # 2)) = Qfloor (x * 100 + (1 # 2))) as Hfloor
    by (apply Qfloor_comp; by rewrite Habs).
  assert (0 <= Qfloor (x * 100 + (1 # 2)))%Z as Hn.
  { change 0%Z with (Qfloor 0). apply Qfloor_resp_le.
    apply Qle_trans with (x * 100)%Q.
    - apply Qmult_le_0_compat; [done | discriminate].
    - rewrite <- (Qplus_0_r (x * 100)) at 1.
      apply Qplus_le_r. discriminate. }
  exists (Z.to_N (Qfloor (x * 100 + (1 # 2)))).
  split; [|split; [|split; [|split]]].
  - unfold toFixed2. rewrite Hfloor.
    assert (Z.ltb (Qnum x) 0 = false) as ->; [|done].
    apply Z.ltb_ge. unfold Qle in Hx. simpl in Hx. lia.
  - apply N.Div0.div_lt_upper_bound.
    pose proof (N.mod_lt (Z.to_N (Qfloor (x * 100 + (1 # 2)))) 100). lia.
  - by apply N.mod_lt.
  - rewrite Z2N.id by done.
    pose proof (Qfloor_le (x * 100 + (1 # 2))) as H.
    apply (Qplus_le_l _ _ (1 # 2)). ring_simplify.
    eapply Qle_trans; [|exact H]. apply Qle_lteq. right. ring.
  - rewrite Z2N.id by done.
    pose proof (Qlt_floor (x * 100 + (1 # 2))) as H.
    rewrite inject_Z_plus in H.
    apply (Qplus_lt_l _ _ (1 # 2)). ring_simplify.
    eapply Qlt_le_trans; [|apply Qle_lteq; right; symmetry].
    + eapply Qle_lt_trans; [|exact H]. apply Qle_lteq. right. ring.
    + ring.
Qed.

(** ** Rounding to a double *)

Section Rounding.
Local Open Scope Q_scope.

Lemma pow2_pos (e : Z) : 0 < 2 ^ e.
Proof. apply Qpower_0_lt. reflexivity. Qed.

Lemma pow2_le (e1 e2 : Z) : (e1 <= e2)%Z -> 2 ^ e1 <= 2 ^ e2.
Proof. intros H. apply Qpower_le_compat_l; [exact H | discriminate]. Qed.

Lemma pow2_succ (e : Z) : 2 ^ (e + 1) == 2 * 2 ^ e.
Proof. rewrite Qpower_plus by discriminate. change (2 ^ 1) with 2. ring. Qed.

Lemma pow2_add (a b : Z) : 2 ^ (a + b) == 2 ^ a * 2 ^ b.
Proof. apply Qpower_plus. discriminate. Qed.

Lemma binade_spec (q : Q) : 0 < q -> 2 ^ binade q <= q /\ q < 2 ^ (binade q + 1).
Proof.
  intros Hq. unfold binade.
  destruct q as [n d]. cbn [Qnum Qden].
  assert (0 < n)%Z as Hn by (unfold Qlt in Hq; simpl in Hq; lia).
  set (a := Z.log2 n). set (b := Z.log2 (Z.pos d)).
  pose proof (Z.log2_spec n Hn) as [Ha1 Ha2]. fold a in Ha1, Ha2.
  pose proof (Z.log2_spec (Z.pos d) ltac:(lia)) as [Hb1 Hb2]. fold b in Hb1, Hb2.
  pose proof (Z.log2_nonneg n) as Ha0. fold a in Ha0.
  pose proof (Z.log2_nonneg (Z.pos d)) as Hb0. fold b in Hb0.
  set (e := (a - b)%Z).
  assert (2 ^ e * 2 ^ b == 2 ^ a) as HE.
  { rewrite <- pow2_add. unfold e. replace (a - b + b)%Z with a by lia. reflexivity. }
  assert (2 ^ (e + 1) == 2 * 2 ^ e) as HE1 by apply pow2_succ.
  assert (2 ^ (e - 1 + 1) == 2 * 2 ^ (e - 1)) as HE0 by apply pow2_succ.
  replace (e - 1 + 1)%Z with e in HE0 by lia.
  assert (2 ^ a <= inject_Z n) as HA1.
  { change 2 with (inject_Z 2). rewrite <- Zpower_Qpower by done. by rewrite <- Zle_Qle. }
  assert (inject_Z n < 2 * 2 ^ a) as HA2.
  { rewrite <- pow2_succ. change 2 with (inject_Z 2) at 1.
    rewrite <- Zpower_Qpower by lia. rewrite <- Zlt_Qlt. exact Ha2. }
  assert (2 ^ b <= inject_Z (Z.pos d)) as HB1.
  { change 2 with (inject_Z 2). rewrite <- Zpower_Qpower by done. by rewrite <- Zle_Qle. }
  assert (inject_Z (Z.pos d) < 2 * 2 ^ b) as HB2.
  { rewrite <- pow2_succ. change 2 with (inject_Z 2) at 1.
    rewrite <- Zpower_Qpower by lia. rewrite <- Zlt_Qlt. exact Hb2. }
  assert ((n # d) * inject_Z (Z.pos d) == inject_Z n) as HQ.
  { unfold Qeq. simpl. lia. }
  pose proof (pow2_pos e) as He. pose proof (pow2_pos b) as Hb. pose proof (pow2_pos a) as Hpa.
  pose proof (pow2_pos (e - 1)) as He'.
  set (Q0 := n # d) in *. set (N := inject_Z n) in *. set (D := inject_Z (Z.pos d)) in *.
  set (E := 2 ^ e) in *. set (B := 2 ^ b) in *. set (A := 2 ^ a) in *.
  set (E' := 2 ^ (e - 1)) in *. set (E1 := 2 ^ (e + 1)) in *.
  destruct (Qle_bool E Q0) eqn:Hle.
  - apply Qle_bool_iff in Hle. split; [exact Hle|]. fold E1.
    clearbody Q0 N D E B A E' E1. nra.
  - assert (Q0 < E) as Hlt.
    { apply Qnot_le_lt. intros H. apply Qle_bool_iff in H. congruence. }
    replace (e - 1 + 1)%Z with e by lia. fold E E'. split; [|exact Hlt].
    clearbody Q0 N D E B A E' E1. nra.
Qed.

Lemma binade_mono (x y : Q) : 0 < x -> x <= y -> (binade x <= binade y)%Z.
Proof.
  intros Hx Hxy.
  assert (0 < y) as Hy by lra.
  destruct (binade_spec x Hx) as [Hx1 _]. destruct (binade_spec y Hy) as [_ Hy2].
  destruct (Z.le_gt_cases (binade x) (binade y)) as [H|H]; [exact H|].
  pose proof (pow2_le (binade y + 1) (binade x) ltac:(lia)). lra.
Qed.

Lemma round_half_even_floor (q : Q) :
  (Qfloor q <= round_half_even q <= Qfloor q + 1)%Z.
Proof.
  unfold round_half_even.
  destruct (q - inject_Z (Qfloor q) ?= 1 # 2); [destruct (Z.even _)| |]; lia.
Qed.

Lemma round_half_even_mono (x y : Q) :
  x <= y -> (round_half_even x <= round_half_even y)%Z.
Proof.
  intros Hxy.
  pose proof (Qfloor_resp_le x y Hxy) as Hf.
  pose proof (round_half_even_floor x) as Hx. pose proof (round_half_even_floor y) as Hy.
  destruct (Z.eq_dec (Qfloor x) (Qfloor y)) as [E|E]; [|lia].
  unfold round_half_even. rewrite <- E.
  destruct (Qcompare_spec (x - inject_Z (Qfloor x)) (1 # 2)) as [H1|H1|H1];
    destruct (Qcompare_spec (y - inject_Z (Qfloor x)) (1 # 2)) as [H2|H2|H2];
    try destruct (Z.even (Qfloor x)); try lia; lra.
Qed.

Lemma round_half_even_Z (k : Z) : round_half_even (inject_Z k) = k.
Proof.
  unfold round_half_even. rewrite Qfloor_Z.
  assert ((inject_Z k - inject_Z k ?= 1 # 2) = Lt) as ->; [|done].
  apply Qlt_alt. assert (inject_Z k - inject_Z k == 0) as -> by ring. reflexivity.
Qed.

Lemma round_half_even_comp (x y : Q) : x == y -> round_half_even x = round_half_even y.
Proof.
  intros H. apply Z.le_antisymm; apply round_half_even_mono; lra.
Qed.

(** The rounding of a positive number stays in its binade, ends included. *)
Lemma double_pos_bounds (q : Q) :
  0 < q ->
  0 <= double_pos q /\
  double_pos q <= 2 ^ (Z.max (binade q) (-1022) + 1) /\
  ((-1022 <= binade q)%Z -> 2 ^ binade q <= double_pos q).
Proof.
  intros Hq. unfold double_pos.
  destruct (binade_spec q Hq) as [Hlo Hhi].
  set (e := Z.max (binade q) (-1022)).
  pose proof (pow2_pos (e - 52)) as Hulp.
  assert (2 ^ (e + 1) == inject_Z (2 ^ 53) * 2 ^ (e - 52)) as Hup.
  { rewrite (Zpower_Qpower 2 53) by done. change (inject_Z 2) with 2.
    rewrite <- pow2_add. by replace (53 + (e - 52))%Z with (e + 1)%Z by lia. }
  assert (2 ^ e == inject_Z (2 ^ 52) * 2 ^ (e - 52)) as Hdown.
  { rewrite (Zpower_Qpower 2 52) by done. change (inject_Z 2) with 2.
    rewrite <- pow2_add. by replace (52 + (e - 52))%Z with e by lia. }
  assert (q / 2 ^ (e - 52) * 2 ^ (e - 52) == q) as Hm by (field; lra).
  assert (0 <= q / 2 ^ (e - 52)) as Hm0.
  { apply Qle_shift_div_l; [done|]. lra. }
  set (ulp := 2 ^ (e - 52)) in *. set (m := q / ulp) in *.
  split; [|split].
  - assert (0 <= round_half_even m)%Z as H0.
    { rewrite <- (round_half_even_Z 0). by apply round_half_even_mono. }
    rewrite Zle_Qle in H0. change (inject_Z 0) with 0 in H0.
    clearbody ulp m. nra.
  - assert (q <= 2 ^ (e + 1)) as Hq1.
    { pose proof (pow2_le (binade q + 1) (e + 1) ltac:(lia)). lra. }
    assert (m <= inject_Z (2 ^ 53)) as Hm1.
    { apply Qle_shift_div_r; [done|]. lra. }
    assert (round_half_even m <= 2 ^ 53)%Z as H1.
    { rewrite <- (round_half_even_Z (2 ^ 53)). by apply round_half_even_mono. }
    rewrite Zle_Qle in H1. rewrite Hup.
    set (r := inject_Z (round_half_even m)) in *. set (c := inject_Z (2 ^ 53)) in *.
    clearbody ulp m r c. nra.
  - intros Hnormal. assert (e = binade q) as He by lia. rewrite <- He in *.
    assert (inject_Z (2 ^ 52) <= m) as Hm1.
    { apply Qle_shift_div_l; [done|]. lra. }
    assert (2 ^ 52 <= round_half_even m)%Z as H1.
    { rewrite <- (round_half_even_Z (2 ^ 52)). by apply round_half_even_mono. }
    rewrite Zle_Qle in H1. rewrite Hdown.
    set (r := inject_Z (round_half_even m)) in *. set (c := inject_Z (2 ^ 52)) in *.
    clearbody ulp m r c. nra.
Qed.

Lemma double_pos_mono (x y : Q) : 0 < x -> x <= y -> double_pos x <= double_pos y.
Proof.
  intros Hx Hxy. assert (0 < y) as Hy by lra.
  pose proof (binade_mono x y Hx Hxy) as Hb.
  destruct (Z.eq_dec (Z.max (binade x) (-1022)) (Z.max (binade y) (-1022))) as [E|E].
  - unfold double_pos. rewrite <- E.
    set (ulp := 2 ^ (Z.max (binade x) (-1022) - 52)).
    pose proof (pow2_pos (Z.max (binade x) (-1022) - 52)) as Hulp. fold ulp in Hulp.
    assert (x / ulp <= y / ulp) as Hm.
    { apply Qle_shift_div_l; [done|].
      assert (x / ulp * ulp == x) as -> by (field; lra). done. }
    apply round_half_even_mono in Hm. rewrite Zle_Qle in Hm.
    set (rx := inject_Z (round_half_even (x / ulp))) in *.
    set (ry := inject_Z (round_half_even (y / ulp))) in *.
    clearbody ulp rx ry. nra.
  - destruct (double_pos_bounds x Hx) as (_ & Hup & _).
    destruct (double_pos_bounds y Hy) as (_ & _ & Hlow).
    assert (-1022 <= binade y)%Z as Hn by lia.
    specialize (Hlow Hn).
    pose proof (pow2_le (Z.max (binade x) (-1022) + 1) (binade y) ltac:(lia)). lra.
Qed.

Lemma double_eq (q : Q) :
  double q == match q ?= 0 with
              | Eq => 0
              | Gt => double_pos q
              | Lt => - double_pos (- q)
              end.
Proof. unfold double. apply Qred_correct. Qed.

(** Rounding is monotone. *)
Lemma double_mono (x y : Q) : x <= y -> double x <= double y.
Proof.
  intros Hxy. rewrite !double_eq.
  destruct (Qcompare_spec x 0) as [Hx|Hx|Hx]; destruct (Qcompare_spec y 0) as [Hy|Hy|Hy];
    try lra.
  - pose proof (double_pos_bounds y Hy). lra.
  - pose proof (double_pos_bounds (- x) ltac:(lra)). lra.
  - pose proof (double_pos_mono (- y) (- x) ltac:(lra) ltac:(lra)). lra.
  - pose proof (double_pos_bounds (- x) ltac:(lra)).
    pose proof (double_pos_bounds y Hy). lra.
  - by apply double_pos_mono.
Qed.

Lemma double_comp (x y : Q) : x == y -> double x = double y.
Proof.
  intros H.
  assert (double x == double y) as E
    by (apply Qle_antisym; apply double_mono; lra).
  unfold double in *. apply Qred_complete.
  by rewrite !Qred_correct in E.
Qed.

(** An integer below 2^53 is a double. *)
Lemma double_pos_inject_Z (z : Z) :
  (0 < z < 2 ^ 53)%Z -> double_pos (inject_Z z) == inject_Z z.
Proof.
  intros [H0 H1]. unfold double_pos.
  assert (binade (inject_Z z) = Z.log2 z) as ->.
  { unfold binade. simpl Qnum. simpl Qden. change (Z.log2 1) with 0%Z.
    rewrite Z.sub_0_r.
    assert (Qle_bool (2 ^ Z.log2 z) (inject_Z z) = true) as ->; [|done].
    apply Qle_bool_iff. change 2 with (inject_Z 2).
    rewrite <- Zpower_Qpower by apply Z.log2_nonneg.
    rewrite <- Zle_Qle. by apply Z.log2_spec. }
  pose proof (Z.log2_nonneg z) as He0.
  assert (Z.log2 z < 53)%Z as He1 by (by apply Z.log2_lt_pow2).
  rewrite Z.max_l by lia.
  set (e := Z.log2 z) in *.
  assert (2 ^ (e - 52) * inject_Z (2 ^ (52 - e)) == 1) as Hinv.
  { rewrite (Zpower_Qpower 2 (52 - e)) by lia. change (inject_Z 2) with 2.
    rewrite <- pow2_add. by replace (e - 52 + (52 - e))%Z with 0%Z by lia. }
  pose proof (pow2_pos (e - 52)) as Hulp.
  assert (inject_Z z / 2 ^ (e - 52) == inject_Z (z * 2 ^ (52 - e))) as Hm.
  { rewrite inject_Z_mult.
    set (u := 2 ^ (e - 52)) in *. set (v := inject_Z (2 ^ (52 - e))) in *.
    assert (v == / u) as ->; [|reflexivity].
    clearbody u v.
    apply (Qmult_inj_l _ _ u); [lra|]. rewrite Hinv. field. lra. }
  rewrite (round_half_even_comp _ _ Hm), round_half_even_Z, inject_Z_mult.
  by rewrite <- Qmult_assoc, (Qmult_comm _ (2 ^ (e - 52))), Hinv, Qmult_1_r.
Qed.

Lemma Qred_inject_Z (z : Z) : Qred (inject_Z z) = inject_Z z.
Proof.
  unfold Qred, inject_Z.
  pose proof (Z.ggcd_gcd z 1) as Hg. pose proof (Z.ggcd_correct_divisors z 1) as Hd.
  destruct (Z.ggcd z 1) as [g [a b]]. simpl in Hg, Hd.
  rewrite Z.gcd_1_r in Hg. subst g. destruct Hd as [Ha Hb].
  replace a with z by lia. replace b with 1%Z by lia. reflexivity.
Qed.

Lemma double_inject_Z (z : Z) :
  (- 2 ^ 53 < z < 2 ^ 53)%Z -> double (inject_Z z) = inject_Z z.
Proof.
  intros Hz.
  rewrite <- (Qred_inject_Z z) at 2.
  unfold double. apply Qred_complete.
  destruct (Qcompare_spec (inject_Z z) 0) as [H|H|H].
  - by rewrite H.
  - change 0 with (inject_Z 0) in H. rewrite <- Zlt_Qlt in H.
    rewrite <- inject_Z_opp, double_pos_inject_Z by lia.
    rewrite inject_Z_opp. ring.
  - change 0 with (inject_Z 0) in H. rewrite <- Zlt_Qlt in H.
    apply double_pos_inject_Z. lia.
Qed.

(** The rounding is the one of binary64: on these operands the sum,
    difference, product and quotient agree with the operations of
    [SpecFloat]. *)
Example double_agrees_with_binary64 :
  forallb (fun b =>
    forallb (fun a =>
      agrees_with_binary64 (Z.of_nat a) (Z.of_nat b) (Z.of_nat b + 3) (Z.of_nat a + 7))
      (seq 0 10))
    (seq 1 10) = true /\
  agrees_with_binary64 1 3 (-2) 7 = true /\
  agrees_with_binary64 (-123456789012345) 7 9007199254740991 1000003 = true /\
  agrees_with_binary64 84189 100 59528 100 = true.
Proof. repeat split; vm_compute; reflexivity. Qed.

Example double_ex :
  double (1 # 10) = 3602879701896397 # 36028797018963968 /\
  double (5 # 6) = 7505999378950827 # 9007199254740992 /\
  double 0 = 0 /\ double (1 # 2) = 1 # 2 /\ double 1 = 1 /\ double (-255) = -255.
Proof. repeat split; vm_compute; reflexivity. Qed.

End Rounding.

(** ** Decimal numerals *)

Lemma digit_cases (d : N) :
  (d < 10)%N ->
  d = 0%N \/ d = 1%N \/ d = 2%N \/ d = 3%N \/ d = 4%N \/
  d = 5%N \/ d = 6%N \/ d = 7%N \/ d = 8%N \/ d = 9%N.
Proof. lia. Qed.

Ltac each_digit H :=
  apply digit_cases in H;
  repeat (destruct H as [H|H]); subst.

Lemma digit_value_digit_char (d : N) :
  (d < 10)%N -> digit_value (digit_char d) = Some d.
Proof. intros H. each_digit H; reflexivity. Qed.

Lemma render_digits_digits_only (fuel : nat) (n : N) (acc : string) :
  digits_only acc -> digits_only (render_digits fuel n acc).
Proof.
  revert n acc. induction fuel as [|fuel IH]; intros n acc Hacc; simpl; [done|].
  assert (digits_only (String (digit_char (n mod 10)) acc)) as Hacc'.
  { split; [|done]. exists (n mod 10)%N. split; [|done].
    apply N.mod_lt. done. }
  destruct (n <? 10)%N; [done | by apply IH].
Qed.

Lemma render_digits_nonempty (fuel : nat) (n : N) (acc : string) :
  render_digits (S fuel) n acc <> "".
Proof.
  revert n acc. induction fuel as [|fuel IH]; intros n acc.
  - simpl. by destruct (n <? 10)%N.
  - change (render_digits (S (S fuel)) n acc) with
      (if (n <? 10)%N then String (digit_char (n mod 10)) acc
       else render_digits (S fuel) (n / 10) (String (digit_char (n mod 10)) acc)).
    destruct (n <? 10)%N; [done | apply IH].
Qed.

(** Reading back what was printed: the digits of [n] in front of [rest]
    leave the reader at [rest] with [n] read. *)
Lemma parse_render_digits (fuel : nat) (n : N) (rest : string) :
  (n < 2 ^ N.of_nat fuel)%N ->
  parse_digits 10 (render_digits (S fuel) n rest) None =
  parse_digits 10 rest (Some n).
Proof.
  revert n rest. induction fuel as [|fuel IH]; intros n rest Hn.
  - assert (n = 0%N) as -> by (simpl in Hn; lia). reflexivity.
  - change (render_digits (S (S fuel)) n rest) with
      (if (n <? 10)%N then String (digit_char (n mod 10)) rest
       else render_digits (S fuel) (n / 10) (String (digit_char (n mod 10)) rest)).
    destruct (N.ltb_spec n 10) as [Hlt|Hge].
    + rewrite N.mod_small by done.
      cbn [parse_digits]. rewrite digit_value_digit_char by done.
      assert ((n <? 10)%N = true) as -> by (by apply N.ltb_lt).
      simpl default. repeat f_equal; lia.
    + rewrite IH.
      * cbn [parse_digits].
        rewrite digit_value_digit_char by (by apply N.mod_lt).
        assert ((n mod 10 <? 10)%N = true) as ->
          by (apply N.ltb_lt; by apply N.mod_lt).
        simpl default. repeat f_equal.
        pose proof (N.div_mod n 10 ltac:(done)). lia.
      * rewrite Nat2N.inj_succ, N.pow_succ_r' in Hn.
        apply N.Div0.div_lt_upper_bound. lia.
Qed.

Lemma size_nat_bound (n : N) : (n < 2 ^ N.of_nat (N.size_nat n))%N.
Proof.
  destruct n as [|p]; [done|]. simpl N.size_nat.
  induction p as [p IH|p IH|]; simpl Pos.size_nat;
    rewrite ?Nat2N.inj_succ, ?N.pow_succ_r'; lia.
Qed.

Lemma parse_string_of_N (n : N) : parse_digits 10 (string_of_N n) None = Some n.
Proof.
  unfold string_of_N. rewrite parse_render_digits by apply size_nat_bound. done.
Qed.

(** On a string of digits [parseInt] finds neither white space, nor a
    sign, nor a radix prefix. *)
Lemma parseInt_digits_only (s : string) :
  digits_only s -> s <> "" ->
  parseInt s =
  match parse_digits 10 s None with
  | Some n => Num (double (inject_Z (Z.of_N n)))
  | None => NaN
  end.
Proof.
  destruct s as [|c rest]; [done|]. intros [(d & Hd & ->) Hrest] _.
  destruct rest as [|c' rest'].
  - each_digit Hd; reflexivity.
  - destruct Hrest as [(d' & Hd' & ->) _].
    each_digit Hd; try reflexivity.
    each_digit Hd'; reflexivity.
Qed.

(** The numeral of an integer that a double holds exactly reads as that
    integer. *)
Lemma parseInt_string_of_N (n : N) :
  (n < 2 ^ 53)%N -> parseInt (string_of_N n) = Num (inject_Z (Z.of_N n)).
Proof.
  intros Hn. rewrite parseInt_digits_only.
  - rewrite parse_string_of_N, double_inject_Z; [done|].
    change (2 ^ 53)%Z with (Z.of_N (2 ^ 53)). lia.
  - by apply render_digits_digits_only.
  - apply render_digits_nonempty.
Qed.

(** *** The numerals are the ones of the Standard Library *)

Lemma digits_only_uint (s : string) :
  digits_only s -> exists u, DecimalString.NilEmpty.uint_of_string s = Some u.
Proof.
  induction s as [|c s IH]; simpl; [by eexists|].
  intros [(d & Hd & ->) Hs]. destruct (IH Hs) as (u & ->).
  each_digit Hd; by eexists.
Qed.

(** Reading the digits of [s] after [a] gives [a] shifted by the length
    of [s] plus the value of [s]. *)
Lemma parse_digits_uint (s : string) (u : Decimal.uint) (a : N) :
  digits_only s ->
  DecimalString.NilEmpty.uint_of_string s = Some u ->
  parse_digits 10 s (Some a) =
  Some (a * 10 ^ DecimalPos.Unsigned.usize u
        + DecimalPos.Unsigned.of_lu (Decimal.rev u))%N.
Proof.
  revert u a. induction s as [|c s IH]; intros u a; simpl.
  - intros _ [= <-]. simpl. f_equal. lia.
  - intros [(d & Hd & ->) Hs].
    destruct (digits_only_uint s Hs) as (u' & Hu'). rewrite Hu'.
    rewrite digit_value_digit_char by done.
    assert ((d <? 10)%N = true) as -> by (by apply N.ltb_lt).
    simpl default. rewrite (IH u' _ Hs Hu').
    intros Hu. f_equal.
    assert (DecimalPos.Unsigned.usize u = N.succ (DecimalPos.Unsigned.usize u') /\
            DecimalPos.Unsigned.of_lu (Decimal.rev u) =
            (DecimalPos.Unsigned.of_lu (Decimal.rev u')
             + d * 10 ^ DecimalPos.Unsigned.usize u')%N) as [-> ->].
    { each_digit Hd; injection Hu as <-; (split; [reflexivity|]);
        unfold Decimal.rev at 1; simpl Decimal.revapp;
        rewrite DecimalPos.Unsigned.of_lu_revapp; simpl DecimalPos.Unsigned.of_lu; lia. }
    rewrite N.pow_succ_r'. lia.
Qed.

(** The numeral of a positive number starts with a digit that is not 0. *)
Lemma render_digits_head (fuel : nat) (n : N) (acc : string) :
  (0 < n < 2 ^ N.of_nat fuel)%N ->
  exists d rest,
    (0 < d < 10)%N /\ render_digits (S fuel) n acc = String (digit_char d) rest.
Proof.
  revert n acc. induction fuel as [|fuel IH]; intros n acc Hn.
  - simpl in Hn. lia.
  - change (render_digits (S (S fuel)) n acc) with
      (if (n <? 10)%N then String (digit_char (n mod 10)) acc
       else render_digits (S fuel) (n / 10) (String (digit_char (n mod 10)) acc)).
    destruct (N.ltb_spec n 10) as [Hlt|Hge].
    + exists n, acc. rewrite N.mod_small by done. split; [lia | done].
    + apply IH. rewrite Nat2N.inj_succ, N.pow_succ_r' in Hn. split.
      * apply N.div_str_pos. lia.
      * apply N.Div0.div_lt_upper_bound. lia.
Qed.

(** [string_of_N] prints the decimal numeral of the Standard Library. *)
Lemma string_of_N_decimal (n : N) : string_of_N n = decimal_numeral n.
Proof.
  unfold decimal_numeral.
  destruct (N.eq_dec n 0%N) as [->|Hn]; [reflexivity|].
  assert (digits_only (string_of_N n)) as Hdigits
    by (by apply render_digits_digits_only).
  destruct (digits_only_uint _ Hdigits) as (u & Hu).
  destruct (render_digits_head (N.size_nat n) n "") as (d & rest & Hd & Hhead).
  { split; [lia | apply size_nat_bound]. }
  fold (string_of_N n) in Hhead.
  assert (parse_digits 10 (string_of_N n) None = parse_digits 10 (string_of_N n) (Some 0%N))
    as Hstart.
  { rewrite Hhead. simpl. rewrite digit_value_digit_char by lia.
    by assert ((d <? 10)%N = true) as -> by (apply N.ltb_lt; lia). }
  pose proof (parse_string_of_N n) as Hvalue.
  rewrite Hstart, (parse_digits_uint _ u 0 Hdigits Hu) in Hvalue.
  injection Hvalue as Hvalue. simpl in Hvalue.
  assert (N.of_uint u = n) as Hof.
  { unfold N.of_uint. by rewrite DecimalPos.Unsigned.of_uint_alt. }
  assert (Decimal.unorm u = u) as Hnorm.
  { rewrite Hhead in Hu. simpl in Hu.
    destruct (DecimalString.NilEmpty.uint_of_string rest) as [u'|]; [|done].
    assert (0 < d < 10)%N as Hd' by done. destruct Hd' as [Hd0 Hd10].
    each_digit Hd10; try lia; by injection Hu as <-. }
  assert (N.to_uint n = u) as ->
    by (by rewrite <- Hof, DecimalN.Unsigned.to_of).
  pose proof (DecimalString.NilEmpty.sus _ _ Hu) as Hs. rewrite <- Hs.
  destruct u; [|done..].
  rewrite Hhead in Hu. simpl in Hu.
  destruct (DecimalString.NilEmpty.uint_of_string rest); [|done].
  destruct Hd as [_ Hd]. each_digit Hd; done.
Qed.

Lemma key_second_string_of_N (n : N) : key_second (string_of_N n) = n.
Proof. unfold key_second. by rewrite parse_string_of_N. Qed.

(** ** Array.prototype.sort *)

Section SortFacts.
Context {A : Type} (later : A -> A -> bool) (R : relation A).

Lemma insert_sorted_perm (x : A) (l : list A) :
  insert_sorted later x l ≡ₚ x :: l.
Proof.
  induction l as [|y l IH]; simpl; [done|].
  destruct (later x y); [|done].
  rewrite IH. apply Permutation_swap.
Qed.

Lemma Array_sort_perm (l : list A) : Array_sort later l ≡ₚ l.
Proof.
  induction l as [|x l IH]; simpl; [done|].
  by rewrite insert_sorted_perm, IH.
Qed.

Lemma Array_sort_length (l : list A) : length (Array_sort later l) = length l.
Proof. by rewrite Array_sort_perm. Qed.

(** Sortedness, for a comparator that is an order on the elements
    that satisfy [P]. *)
Context (P : A -> Prop).
Hypothesis R_trans : Transitive R.
Hypothesis later_false : forall x y, P x -> P y -> later x y = false -> R x y.
Hypothesis later_true : forall x y, P x -> P y -> later x y = true -> R y x.

Lemma insert_sorted_sorted (x : A) (l : list A) :
  P x -> Forall P l ->
  StronglySorted R l -> StronglySorted R (insert_sorted later x l).
Proof.
  intros Px Pl Hs. induction Hs as [|y l Hl IH Hy]; simpl.
  - repeat constructor.
  - apply Forall_cons in Pl as [Py Pl].
    destruct (later x y) eqn:E.
    + constructor; [by apply IH|].
      rewrite insert_sorted_perm. constructor; [by apply later_true | done].
    + constructor; [by constructor|].
      constructor; [by apply later_false|].
      eapply Forall_impl; [exact Hy|].
      intros z Hz. etrans; [by apply later_false | done].
Qed.

Lemma Array_sort_sorted_on (l : list A) :
  Forall P l -> StronglySorted R (Array_sort later l).
Proof.
  induction l as [|x l IH]; simpl; intros Pl; [constructor|].
  apply Forall_cons in Pl as [Px Pl].
  apply insert_sorted_sorted; [done | by rewrite Array_sort_perm | by apply IH].
Qed.

End SortFacts.

(** ** The page cursor *)

Lemma addPage_availableSpace (doc : Doc) :
  (availableSpace (addPage doc) ==
   page_height (page doc) - margin_bottom (page doc) - margin_top (page doc))%Q.
Proof. unfold availableSpace, addPage; simpl. reflexivity. Qed.

(** C5, as the code has it: checkAndAddPage starts a new page and returns
    true exactly when the space left on the current page (page height
    minus bottom margin minus cursor) is strictly less than the required
    height, and otherwise returns false and leaves the document as it
    is; on the new page the space left is the page height minus the
    bottom margin minus the top margin. *)
Theorem checkAndAddPage_transition (requiredHeight : Q) (doc : Doc) :
  ((availableSpace doc < requiredHeight)%Q /\
     checkAndAddPage requiredHeight doc = (addPage doc, true) /\
     page_count (fst (checkAndAddPage requiredHeight doc)) = S (page_count doc) /\
     (availableSpace (fst (checkAndAddPage requiredHeight doc)) ==
      page_height (page doc) - margin_bottom (page doc) - margin_top (page doc))%Q)
  \/
  (~ (availableSpace doc < requiredHeight)%Q /\
     checkAndAddPage requiredHeight doc = (doc, false)).
Proof.
  unfold checkAndAddPage.
  fold (availableSpace doc).
  destruct (Qle_bool requiredHeight (availableSpace doc)) eqn:E; simpl.
  - right. split; [|done].
    apply Qle_bool_iff in E. by apply Qle_not_lt.
  - left. split.
    + apply Qnot_le_lt. intros H. apply Qle_bool_iff in H. congruence.
    + repeat split; try done; apply addPage_availableSpace.
Qed.

(** C5, as the claim has it, fails on the A4 page with 50-point margins
    of the reports: with the cursor at 700 a chart of 300 points forces
    a new page, and the space left on it is 741.89, not the page height
    minus the top margin, 791.89. *)
Lemma checkAndAddPage_new_page_space_counterexample :
  let doc := {| page := A4; page_count := 1; y := 700 |} in
  checkAndAddPage 300 doc = (addPage doc, true) /\
  (availableSpace (fst (checkAndAddPage 300 doc)) == 74189 # 100)%Q /\
  ~ (availableSpace (fst (checkAndAddPage 300 doc)) ==
     page_height (page doc) - margin_top (page doc))%Q.
Proof.
  repeat split; vm_compute; congruence.
Qed.

(** ** The payload preview *)

Lemma length_append (s1 s2 : string) :
  String.length (s1 +:+ s2) = String.length s1 + String.length s2.
Proof. induction s1 as [|c s1 IH]; simpl; [done | by rewrite IH]. Qed.

Lemma length_substring_to (n : nat) (s : string) :
  n <= String.length s -> String.length (substring_to n s) = n.
Proof.
  unfold substring_to. revert s.
  induction n as [|n IH]; intros [|c s] H; simpl in *; try done; try lia.
  rewrite IH; [done | lia].
Qed.

Lemma substring_to_prefix (n : nat) (s : string) :
  String.prefix (substring_to n s) s = true.
Proof.
  unfold substring_to. revert s.
  induction n as [|n IH]; intros [|c s]; simpl; try done.
  destruct (ascii_dec c c); [apply IH | done].
Qed.

(** The preview of a payload text. *)
Lemma payloadPreview_cases (payloadText : string) :
  (500 < String.length payloadText ->
     payloadPreview payloadText = String.substring 0 497 payloadText +:+ "...") /\
  (String.length payloadText <= 500 -> payloadPreview payloadText = payloadText).
Proof.
  unfold payloadPreview, substring_to. split; intros H.
  - by assert (Nat.ltb 500 (String.length payloadText) = true) as ->
      by (apply Nat.ltb_lt; lia).
  - by assert (Nat.ltb 500 (String.length payloadText) = false) as ->
      by (apply Nat.ltb_ge; lia).
Qed.

(** C9: what the report prints for the payload of the configuration,
    [payloadText] being its pretty-printed JSON text.  For a payload that
    is set (truthy), the report prints the heading "Payload:" and then,
    when the text has more than 500 characters, the first 497 characters
    of the text followed by three dots, 500 characters in all; a text of
    at most 500 characters is printed as it is.  For a payload that is
    not set nothing is printed. *)
Theorem payloadPreview_truncation (stringify : value -> string) (payload : value) :
  let payloadText := stringify payload in
  (truthy payload = true -> 500 < String.length payloadText ->
     payload_block stringify payload =
       ["Payload:"; String.substring 0 497 payloadText +:+ "..."] /\
     String.prefix (String.substring 0 497 payloadText) payloadText = true /\
     String.length (String.substring 0 497 payloadText) = 497 /\
     String.length (String.substring 0 497 payloadText +:+ "...") = 500) /\
  (truthy payload = true -> String.length payloadText <= 500 ->
     payload_block stringify payload = ["Payload:"; payloadText]) /\
  (truthy payload = false -> payload_block stringify payload = []).
Proof.
  intros payloadText. unfold payload_block. fold payloadText.
  destruct (payloadPreview_cases payloadText) as [Hlong Hshort].
  split; [|split].
  - intros -> H. rewrite (Hlong H). split; [done|].
    split; [apply substring_to_prefix|].
    pose proof (length_substring_to 497 payloadText ltac:(lia)) as Hlen.
    unfold substring_to in Hlen. split; [done|].
    rewrite length_append, Hlen. done.
  - intros -> H. by rewrite (Hshort H).
  - by intros ->.
Qed.

(** A payload whose text has 501 characters: the preview has 500. *)
Lemma payloadPreview_truncation_witness :
  exists preview,
    payload_block (fun _ => Samples.long_payload) (VObject [("id", of_Z 7)]) =
      ["Payload:"; preview] /\
    String.length preview = 500.
Proof.
  destruct (payloadPreview_truncation (fun _ => Samples.long_payload)
              (VObject [("id", of_Z 7)])) as [H _].
  destruct H as (E & _ & _ & Hlen); [reflexivity | vm_compute; lia |].
  eexists. split; [exact E | exact Hlen].
Defined.

(** ** The colour gradient *)

Lemma push_loop {A B : Type} (f : A -> B) (l : list A) (acc : list B) :
  fold_left (fun colors i => (colors ++ [f i])%list) l acc = (acc ++ map f l)%list.
Proof.
  revert acc. induction l as [|x l IH]; intros acc; simpl.
  - by rewrite app_nil_r.
  - by rewrite IH, <- app_assoc.
Qed.

Lemma generateColorGradient_map (count : nat) :
  generateColorGradient count = map (gradient_step count) (seq 0 count).
Proof. unfold generateColorGradient. by rewrite push_loop. Qed.

Lemma generateColorGradient_length (count : nat) :
  length (generateColorGradient count) = count.
Proof. by rewrite generateColorGradient_map, length_map, length_seq. Qed.

Lemma generateColorGradient_lookup (count i : nat) :
  i < count -> generateColorGradient count !! i = Some (gradient_step count i).
Proof.
  intros H. rewrite generateColorGradient_map, list_lookup_fmap.
  by rewrite lookup_seq_lt.
Qed.

Lemma ratio_divisor_max (count : nat) :
  1 <= count -> ratio_divisor count = Z.max (Z.of_nat count - 1) 1.
Proof.
  intros H. unfold ratio_divisor.
  destruct (Z.eqb_spec (Z.of_nat count - 1) 0) as [E|E]; lia.
Qed.

Lemma Math_round_comp (x y : Q) : (x == y)%Q -> Math_round x = Math_round y.
Proof. intros H. unfold Math_round. apply Qfloor_comp. by rewrite H. Qed.

Lemma Qltb_comp (x x' y : Q) : (x == x')%Q -> Qltb x y = Qltb x' y.
Proof.
  intros H. unfold Qltb. f_equal.
  destruct (Qle_bool y x) eqn:E1, (Qle_bool y x') eqn:E2; try done.
  - apply Qle_bool_iff in E1. rewrite H in E1. apply Qle_bool_iff in E1. congruence.
  - apply Qle_bool_iff in E2. rewrite <- H in E2. apply Qle_bool_iff in E2. congruence.
Qed.

(** The loop body is the formula of section 4.3 in the arithmetic of
    doubles, with the blue channel computed from the green value before
    that value is rounded to an integer. *)
Lemma gradient_step_formula (N i : nat) :
  1 <= N -> gradient_step N i = spec_gradient_color_unrounded N i.
Proof.
  intros H. unfold gradient_step, spec_gradient_color_unrounded.
  rewrite (ratio_divisor_max N H).
  set (ratio := fdiv (inject_Z (Z.of_nat i)) (inject_Z (Z.max (Z.of_nat N - 1) 1))).
  assert (fsub 255 75 = 180%Q) as -> by (vm_compute; reflexivity).
  assert (fmul ratio 2 = fmul 2 ratio) as -> by (apply double_comp; ring).
  assert (fmul (fsub ratio (1 # 2)) 2 = fmul 2 (fsub ratio (1 # 2))) as ->
    by (apply double_comp; ring).
  reflexivity.
Qed.

Lemma gradient_step_first (count : nat) :
  gradient_step count 0 = {| red := 75; green := 75; blue := 192; alpha := "0.6" |}.
Proof.
  unfold gradient_step.
  assert (fdiv (inject_Z (Z.of_nat 0)) (inject_Z (ratio_divisor count)) = 0%Q) as ->.
  { unfold fdiv. rewrite (double_comp _ 0%Q); [reflexivity|]. simpl. apply Qmult_0_l. }
  vm_compute. reflexivity.
Qed.

Lemma gradient_step_last (count : nat) :
  2 <= count ->
  gradient_step count (count - 1) =
  {| red := 255; green := 0; blue := 0; alpha := "0.6" |}.
Proof.
  intros H. unfold gradient_step.
  assert (ratio_divisor count = Z.of_nat (count - 1)) as ->.
  { rewrite ratio_divisor_max by lia. lia. }
  assert (fdiv (inject_Z (Z.of_nat (count - 1))) (inject_Z (Z.of_nat (count - 1))) = 1%Q)
    as ->.
  { unfold fdiv. rewrite (double_comp _ 1%Q); [reflexivity|].
    apply Qmult_inv_r. intros E. unfold Qeq in E. simpl in E. lia. }
  vm_compute. reflexivity.
Qed.

(** C4, as the code has it: for N >= 1 the gradient has N colours and
    the colour at position i is the formula of section 4.3 with ratio
    i / max(N-1, 1), every operation being the one of doubles and the
    blue channel of the upper half being the rounding of half the green
    value before that value is rounded to an integer; for N = 1 it is
    the one colour of ratio 0; for N >= 2 the colour at position 0 is
    closer to green than the colour at position N-1.  The rounding of
    doubles shows at N = 7, position 5: the green value is a little
    below 85 and the colour is rgba(255, 85, 42, 0.6). *)
Theorem generateColorGradient_formula (N : nat) :
  1 <= N ->
  length (generateColorGradient N) = N /\
  (forall i, i < N ->
     generateColorGradient N !! i = Some (spec_gradient_color_unrounded N i)) /\
  (N = 1 ->
     generateColorGradient N =
     [{| red := 75; green := 75; blue := 192; alpha := "0.6" |}]) /\
  (2 <= N ->
     exists first last,
       generateColorGradient N !! 0 = Some first /\
       generateColorGradient N !! (N - 1) = Some last /\
       greener first last) /\
  (N = 7 ->
     generateColorGradient N !! 5 =
     Some {| red := 255; green := 85; blue := 42; alpha := "0.6" |}).
Proof.
  intros HN. split; [apply generateColorGradient_length|]. split; [|split; [|split]].
  - intros i Hi. rewrite generateColorGradient_lookup by done.
    by rewrite gradient_step_formula.
  - intros ->. vm_compute. reflexivity.
  - intros H2. eexists _, _. split; [|split].
    + apply generateColorGradient_lookup. lia.
    + apply generateColorGradient_lookup. lia.
    + rewrite gradient_step_first, gradient_step_last by done.
      unfold greener. vm_compute. done.
  - intros ->. vm_compute. reflexivity.
Qed.

(** The formula at N = 5, position 3. *)
Lemma generateColorGradient_formula_witness :
  generateColorGradient 5 !! 3 = Some (spec_gradient_color_unrounded 5 3).
Proof.
  apply (generateColorGradient_formula 5); lia.
Defined.

(** C4, as the claim has it, fails at N = 8, position 6: the green value
    is 72.857..., its rounding is 73, the code's blue channel is
    round(36.428...) = 36 and the claim's is round(73/2) = 37.  Read
    over the rationals the claim fails at N = 7, position 5 as well,
    where its blue channel is round(85/2) = 43. *)
Lemma generateColorGradient_blue_counterexample :
  generateColorGradient 8 !! 6 =
    Some {| red := 255; green := 73; blue := 36; alpha := "0.6" |} /\
  spec_gradient_color 8 6 = {| red := 255; green := 73; blue := 37; alpha := "0.6" |} /\
  generateColorGradient 8 !! 6 <> Some (spec_gradient_color 8 6) /\
  spec_gradient_color_exact 8 6 = spec_gradient_color 8 6 /\
  spec_gradient_color_exact 7 5 = {| red := 255; green := 85; blue := 43; alpha := "0.6" |} /\
  generateColorGradient 7 !! 5 <> Some (spec_gradient_color_exact 7 5).
Proof.
  repeat split; vm_compute; congruence.
Qed.

(** The gradient of 13 scenarios: at position 7 the green value is a
    little below 212.5, at position 10 a little below 85. *)
Example gradient_13 :
  map css (generateColorGradient 13) =
  ["rgba(75, 75, 192, 0.6)"; "rgba(75, 105, 192, 0.6)"; "rgba(75, 135, 192, 0.6)";
   "rgba(75, 165, 192, 0.6)"; "rgba(75, 195, 192, 0.6)"; "rgba(75, 225, 192, 0.6)";
   "rgba(255, 255, 128, 0.6)"; "rgba(255, 212, 106, 0.6)"; "rgba(255, 170, 85, 0.6)";
   "rgba(255, 128, 64, 0.6)"; "rgba(255, 85, 42, 0.6)"; "rgba(255, 43, 21, 0.6)";
   "rgba(255, 0, 0, 0.6)"].
Proof. vm_compute. reflexivity. Qed.

(** ** Table batches *)

Section BatchFacts.
Context {A : Type}.
Implicit Types (l : list A) (bs : list (list A)).

Lemma slice_step l (i m : nat) : slice l i (i + m) = take m (drop i l).
Proof. unfold slice. f_equal. lia. Qed.

(** With a positive step and fuel beyond the elements that are left, the
    loop ends, and what it appends are the consecutive slices of width
    [m] from [i] on. *)
Lemma batch_loop_slices l (m : nat) :
  0 < m ->
  forall fuel i acc,
    length l - i < fuel ->
    exists bs,
      batch_loop fuel l m i acc = Some (acc ++ bs)%list /\
      concat bs = drop i l /\
      Forall (fun b => length b <= m /\ b <> []) bs /\
      (forall k b, bs !! k = Some b -> b = slice l (i + k * m) (i + k * m + m)).
Proof.
  intros Hm. induction fuel as [|fuel IH]; intros i acc Hfuel; [lia|].
  simpl. destruct (Nat.ltb_spec i (length l)) as [Hi|Hi].
  - destruct (IH (i + m) (acc ++ [slice l i (i + m)])%list) as (bs & E & Hcat & Hlen & Hk);
      [lia|].
    exists (slice l i (i + m) :: bs). rewrite E, <- app_assoc. simpl.
    split; [done|]. split; [|split].
    + rewrite Hcat, slice_step, <- drop_drop. apply take_drop.
    + constructor; [|done]. rewrite slice_step. split.
      * rewrite length_take. lia.
      * intros E0. apply (f_equal length) in E0.
        rewrite length_take, length_drop in E0. simpl in E0. lia.
    + intros [|k] b Hb; simpl in Hb.
      * injection Hb as <-. f_equal; lia.
      * rewrite (Hk k b Hb). f_equal; lia.
  - exists []. rewrite app_nil_r. split; [done|].
    split; [by rewrite drop_ge by lia|]. split; [constructor|].
    intros k b Hb. by rewrite lookup_nil in Hb.
Qed.

End BatchFacts.

(** On the A4 page of the report four scenario columns fit. *)
Lemma A4_columns : Math_floor (remainingWidth A4 / 70) = 4%Z.
Proof. reflexivity. Qed.



Example tableBatches_five :
  option_map (map (map name)) (tableBatches 6 Samples.five (remainingWidth A4)) =
  Some [["login"; "search"; "cart"; "home"]; ["checkout"]].
Proof. reflexivity. Qed.

(** ** Ranking *)

Lemma Qltb_true (x y : Q) : Qltb x y = true -> (x < y)%Q.
Proof.
  unfold Qltb. intros H. apply Qnot_le_lt. intros E.
  apply Qle_bool_iff in E. rewrite E in H. done.
Qed.

Lemma Qltb_false (x y : Q) : Qltb x y = false -> (y <= x)%Q.
Proof.
  unfold Qltb. intros H. apply Qle_bool_iff.
  by destruct (Qle_bool y x).
Qed.

#[local] Instance ascending_latency_trans : Transitive ascending_latency.
Proof. intros a b c. unfold ascending_latency. apply Qle_trans. Qed.

#[local] Instance descending_throughput_trans : Transitive descending_throughput.
Proof. intros a b c H1 H2. unfold descending_throughput in *. by eapply Qle_trans. Qed.

Lemma later_by_latency_false (a b : Scenario) :
  later_by_latency a b = false -> ascending_latency a b.
Proof.
  intros H. apply Qltb_false in H. unfold ascending_latency.
  apply Qle_minus_iff. apply Qle_minus_iff in H.
  eapply Qle_trans; [exact H|]. apply Qle_lteq. right. ring.
Qed.

Lemma later_by_latency_true (a b : Scenario) :
  later_by_latency a b = true -> ascending_latency b a.
Proof.
  intros H. apply Qltb_true in H. unfold ascending_latency.
  apply Qlt_le_weak. apply Qlt_minus_iff. done.
Qed.

Lemma later_by_throughput_false (a b : Scenario) :
  later_by_throughput a b = false -> descending_throughput a b.
Proof.
  intros H. apply Qltb_false in H. unfold descending_throughput.
  apply Qle_minus_iff. apply Qle_minus_iff in H.
  eapply Qle_trans; [exact H|]. apply Qle_lteq. right. ring.
Qed.

Lemma later_by_throughput_true (a b : Scenario) :
  later_by_throughput a b = true -> descending_throughput b a.
Proof.
  intros H. apply Qltb_true in H. unfold descending_throughput.
  apply Qlt_le_weak. apply Qlt_minus_iff. done.
Qed.

Lemma latency_order_sorted (l : list Scenario) :
  StronglySorted ascending_latency (Array_sort later_by_latency l).
Proof.
  apply (Array_sort_sorted_on _ _ (fun _ => True)); [apply _ | | |].
  - intros x y _ _. apply later_by_latency_false.
  - intros x y _ _. apply later_by_latency_true.
  - by apply Forall_true.
Qed.

Lemma throughput_order_sorted (l : list Scenario) :
  StronglySorted descending_throughput (Array_sort later_by_throughput l).
Proof.
  apply (Array_sort_sorted_on _ _ (fun _ => True)); [apply _ | | |].
  - intros x y _ _. apply later_by_throughput_false.
  - intros x y _ _. apply later_by_throughput_true.
  - by apply Forall_true.
Qed.

(** The head of a sorted list is a bound of all its elements. *)
Lemma sorted_head_bound {A : Type} (R : relation A) `{!Reflexive R}
    (x : A) (l before : list A) :
  StronglySorted R (x :: l) -> x :: l ≡ₚ before ->
  forall t, t ∈ before -> R x t.
Proof.
  intros Hs Hp t Ht. rewrite <- Hp in Ht.
  apply StronglySorted_inv in Hs as [_ Hall].
  apply elem_of_cons in Ht as [->|Ht]; [done|].
  rewrite Forall_forall in Hall. by apply Hall.
Qed.

#[local] Instance ascending_latency_refl : Reflexive ascending_latency.
Proof. intros a. unfold ascending_latency. apply Qle_refl. Qed.

#[local] Instance descending_throughput_refl : Reflexive descending_throughput.
Proof. intros a. unfold descending_throughput. apply Qle_refl. Qed.

Lemma maxTests_A4_positive (count : nat) :
  1 <= count -> (0 < maxTests_for count (remainingWidth A4))%Z.
Proof. intros H. unfold maxTests_for. rewrite A4_columns. lia. Qed.

Lemma sorted_nonempty {A : Type} (later : A -> A -> bool) (l : list A) :
  1 <= length l -> exists x rest, Array_sort later l = x :: rest.
Proof.
  intros H. destruct (Array_sort later l) as [|x rest] eqn:E; [|by eauto].
  apply (f_equal length) in E. rewrite Array_sort_length in E. simpl in E. lia.
Qed.

(** On two or more entries the function reaches its end: the array at
    [testResults] holds the latency order, a new array holds the
    throughput order, and the report is built from the two. *)
Lemma generateComparisonReport_reported (testResults : loc) (st : Store)
    (before : list Scenario) :
  st !! testResults = Some before ->
  2 <= length before ->
  exists bestL restL bestT restT bs,
    Array_sort later_by_latency before = bestL :: restL /\
    Array_sort later_by_throughput (bestL :: restL) = bestT :: restT /\
    tableBatches (S (length (bestL :: restL))) (bestL :: restL) (remainingWidth A4) = Some bs /\
    generateComparisonReport A4 testResults st =
    (<[fresh (dom (<[testResults := bestL :: restL]> st)) := bestT :: restT]>
       (<[testResults := bestL :: restL]> st),
     Reported
       {| latencyCompChart :=
            {| labels := map name (bestL :: restL);
               data := map (fun t => lat_average (latency (result t))) (bestL :: restL);
               backgroundColor := generateColorGradient (length (bestL :: restL));
               borderColor := map opaque (generateColorGradient (length (bestL :: restL))) |};
          reqCompChart :=
            {| labels := map name (bestT :: restT);
               data := map (fun t => req_average (requests (result t))) (bestT :: restT);
               backgroundColor := reverse (generateColorGradient (length (bestL :: restL)));
               borderColor :=
                 reverse (map opaque (generateColorGradient (length (bestL :: restL)))) |};
          sortedByThroughput_ref := fresh (dom (<[testResults := bestL :: restL]> st));
          bestLatency :=
            "Best Latency: " +:+ getShortenedName (name bestL) 25 +:+ " (" +:+
            toFixed2 (lat_average (latency (result bestL))) +:+ " ms)";
          bestThroughput :=
            "Best Throughput: " +:+ getShortenedName (name bestT) 25 +:+ " (" +:+
            toFixed2 (req_average (requests (result bestT))) +:+ " req/sec)";
          batches := bs |}).
Proof.
  intros Hst Hlen.
  destruct (sorted_nonempty later_by_latency before) as (bestL & restL & EL); [lia|].
  destruct (sorted_nonempty later_by_throughput (bestL :: restL)) as (bestT & restT & ET);
    [simpl; lia|].
  assert (length (bestL :: restL) = length before) as Hn
    by (by rewrite <- EL, Array_sort_length).
  destruct (batch_loop_slices (bestL :: restL)
              (Z.to_nat (maxTests_for (length (bestL :: restL)) (remainingWidth A4)))
              ltac:(pose proof (maxTests_A4_positive (length (bestL :: restL))
                                  ltac:(simpl; lia)); lia)
              (S (length (bestL :: restL))) 0 []) as (bs & Ebs & _); [lia|].
  simpl app in Ebs. fold (tableBatches (S (length (bestL :: restL))) (bestL :: restL)
                            (remainingWidth A4)) in Ebs.
  exists bestL, restL, bestT, restT, bs.
  split; [done|]. split; [done|]. split; [done|].
  unfold generateComparisonReport. rewrite Hst.
  destruct (Nat.leb_spec (length before) 1) as [H1|H1]; [lia|].
  rewrite EL. cbv zeta. rewrite ET. unfold bestLatencyCallout, bestThroughputCallout.
  rewrite Ebs. reflexivity.
Qed.

(** The two parts of a callout are what the specification says of
    them. *)
Lemma getShortenedName_spec (name : string) (maxLength : nat) :
  spec_shortened_name maxLength name (getShortenedName name maxLength).
Proof.
  unfold spec_shortened_name, getShortenedName, substring_to.
  destruct (Nat.ltb_spec maxLength (String.length name)); [right | left]; done.
Qed.

Lemma toFixed2_spec (x : Q) : spec_two_decimals x (toFixed2 x).
Proof.
  assert (0 <= Qabs x * 100)%Q as Hx.
  { apply Qmult_le_0_compat; [apply Qabs_nonneg | discriminate]. }
  assert (0 <= Qfloor (Qabs x * 100 + (1 # 2)))%Z as Hn.
  { change 0%Z with (Qfloor 0). apply Qfloor_resp_le. lra. }
  exists (Z.to_N (Qfloor (Qabs x * 100 + (1 # 2)))).
  rewrite Z2N.id by done.
  pose proof (Qfloor_le (Qabs x * 100 + (1 # 2))) as Hle.
  pose proof (Qlt_floor (Qabs x * 100 + (1 # 2))) as Hlt.
  rewrite inject_Z_plus in Hlt. change (inject_Z 1) with 1%Q in Hlt.
  split; [lra|]. split; [lra|].
  unfold toFixed2. rewrite !string_of_N_decimal.
  set (n := Z.to_N (Qfloor (Qabs x * 100 + (1 # 2)))).
  assert (n mod 100 mod 10 = n mod 10)%N as ->.
  { rewrite (N.div_mod n 100) at 2 by done.
    replace (100 * (n / 100) + n mod 100)%N
      with (n mod 100 + (10 * (n / 100)) * 10)%N by lia.
    by rewrite N.Div0.mod_add. }
  assert ((if Z.ltb (Qnum x) 0 then "-" else "") =
          (if Qlt_le_dec x 0 then "-" else "")) as ->; [|done].
  destruct (Z.ltb_spec (Qnum x) 0) as [H|H]; destruct (Qlt_le_dec x 0) as [H'|H'];
    try done; unfold Qlt, Qle in H'; simpl in H'; lia.
Qed.

(** C8: on two or more completed scenarios the report is produced; the
    array passed in then holds the scenarios in ascending order of
    average latency, a second array, computed separately, holds them in
    descending order of average requests per second.  The best-latency
    callout is "Best Latency: ", the name of the first scenario of the
    first order (its first 22 characters and three dots when it has more
    than 25), and in brackets its average latency to two decimals with
    the unit ms; the best-throughput callout is the same for the first
    scenario of the second order, with its average requests per second
    and the unit req/sec.  (An average of 10^21 and more is printed in
    exponent notation, which the statement leaves open.) *)
Theorem comparison_orderings_and_callouts (testResults : loc) (st : Store)
    (before : list Scenario) :
  st !! testResults = Some before ->
  2 <= length before ->
  exists st' r latencyOrder throughputOrder bestL bestT shownL textL shownT textT,
    generateComparisonReport A4 testResults st = (st', Reported r) /\
    (* the primary ordering *)
    st' !! testResults = Some latencyOrder /\
    latencyOrder ≡ₚ before /\
    StronglySorted ascending_latency latencyOrder /\
    labels (latencyCompChart r) = map name latencyOrder /\
    (* the throughput ordering, in an array of its own *)
    sortedByThroughput_ref r <> testResults /\
    st !! sortedByThroughput_ref r = None /\
    st' !! sortedByThroughput_ref r = Some throughputOrder /\
    throughputOrder ≡ₚ before /\
    StronglySorted descending_throughput throughputOrder /\
    labels (reqCompChart r) = map name throughputOrder /\
    (* the callouts *)
    head latencyOrder = Some bestL /\
    (forall t, t ∈ before -> ascending_latency bestL t) /\
    bestLatency r = "Best Latency: " +:+ shownL +:+ " (" +:+ textL +:+ " ms)" /\
    spec_shortened_name 25 (name bestL) shownL /\
    ((Qabs (lat_average (latency (result bestL))) < inject_Z (10 ^ 21))%Q ->
       spec_two_decimals (lat_average (latency (result bestL))) textL) /\
    head throughputOrder = Some bestT /\
    (forall t, t ∈ before -> descending_throughput bestT t) /\
    bestThroughput r =
      "Best Throughput: " +:+ shownT +:+ " (" +:+ textT +:+ " req/sec)" /\
    spec_shortened_name 25 (name bestT) shownT /\
    ((Qabs (req_average (requests (result bestT))) < inject_Z (10 ^ 21))%Q ->
       spec_two_decimals (req_average (requests (result bestT))) textT).
Proof.
  intros Hst Hlen.
  destruct (generateComparisonReport_reported testResults st before Hst Hlen)
    as (bestL & restL & bestT & restT & bs & EL & ET & _ & E).
  set (copy := fresh (dom (<[testResults := bestL :: restL]> st))) in *.
  assert (copy ∉ dom (<[testResults := bestL :: restL]> st)) as Hfresh
    by apply is_fresh.
  assert (copy <> testResults) as Hne.
  { intros ->. apply Hfresh. rewrite dom_insert. set_solver. }
  assert (bestL :: restL ≡ₚ before) as HpL by (rewrite <- EL; apply Array_sort_perm).
  assert (bestT :: restT ≡ₚ before) as HpT
    by (rewrite <- ET, Array_sort_perm; exact HpL).
  assert (StronglySorted ascending_latency (bestL :: restL)) as HsL
    by (rewrite <- EL; apply latency_order_sorted).
  assert (StronglySorted descending_throughput (bestT :: restT)) as HsT
    by (rewrite <- ET; apply throughput_order_sorted).
  eexists _, _, (bestL :: restL), (bestT :: restT), bestL, bestT,
    (getShortenedName (name bestL) 25), (toFixed2 (lat_average (latency (result bestL)))),
    (getShortenedName (name bestT) 25), (toFixed2 (req_average (requests (result bestT)))).
  split; [exact E|]. simpl.
  repeat split; try done.
  - by rewrite lookup_insert_ne, lookup_insert_eq.
  - apply not_elem_of_dom in Hfresh.
    by rewrite lookup_insert_ne in Hfresh.
  - by rewrite lookup_insert_eq.
  - by apply (sorted_head_bound _ _ restL).
  - apply getShortenedName_spec.
  - intros _. apply toFixed2_spec.
  - by apply (sorted_head_bound _ _ restT).
  - apply getShortenedName_spec.
  - intros _. apply toFixed2_spec.
Qed.

(** The report of B and A, run in that order. *)
Lemma comparison_orderings_and_callouts_witness :
  exists st' r,
    generateComparisonReport A4 1%positive
      {[ 1%positive := [Samples.scenarioB; Samples.scenarioA] ]} = (st', Reported r).
Proof.
  destruct (comparison_orderings_and_callouts 1%positive
              {[ 1%positive := [Samples.scenarioB; Samples.scenarioA] ]}
              [Samples.scenarioB; Samples.scenarioA])
    as (st' & r & lo & to & bl & bt & sl & tl & sT & tT & E & _).
  - vm_compute. reflexivity.
  - simpl. lia.
  - by exists st', r.
Defined.

(** The end-to-end example of the specification: B (20 ms, 300 req/s)
    runs before A (10 ms, 500 req/s). *)
Example comparison_A_B :
  option_map
    (fun r => (labels (latencyCompChart r), labels (reqCompChart r),
               bestLatency r, bestThroughput r))
    (report_of (snd (generateComparisonReport A4 1%positive
                       {[ 1%positive := [Samples.scenarioB; Samples.scenarioA] ]}))) =
  Some (["A"; "B"], ["A"; "B"],
        "Best Latency: A (10.00 ms)", "Best Throughput: A (500.00 req/sec)").
Proof. vm_compute. reflexivity. Qed.

(** ** The shared array of completed results *)

Lemma push_all (testResults : loc) (runs acc : list Scenario) (st : Store) :
  foldl (fun st t => push testResults t st) (<[testResults := acc]> st) runs =
  <[testResults := (acc ++ runs)%list]> st.
Proof.
  revert acc. induction runs as [|t runs IH]; intros acc; simpl.
  - by rewrite app_nil_r.
  - unfold push at 2. rewrite alter_insert_eq, IH, <- app_assoc. done.
Qed.

(** C10: the comparison sorts the very array runTests accumulated.
    Before the call the array holds the entries in execution order;
    after it, the same location holds them in ascending order of
    average latency: the same entries, each as it was (a permutation),
    but no longer in execution order unless that order was ascending
    already.  The arrays that existed before are as they were. *)
Theorem comparison_sorts_shared_array (runs : list Scenario) (st : Store) :
  2 <= length runs ->
  exists testResults st' r,
    runTests_compare A4 runs st = (testResults, (st', Reported r)) /\
    st !! testResults = None /\
    foldl (fun st t => push testResults t st) (<[testResults := []]> st) runs
      !! testResults = Some runs /\
    st' !! testResults = Some (Array_sort later_by_latency runs) /\
    Array_sort later_by_latency runs ≡ₚ runs /\
    StronglySorted ascending_latency (Array_sort later_by_latency runs) /\
    (~ StronglySorted ascending_latency runs -> st' !! testResults <> Some runs) /\
    (forall other, is_Some (st !! other) -> st' !! other = st !! other).
Proof.
  intros Hlen. unfold runTests_compare.
  set (testResults := fresh (dom st)).
  assert (st !! testResults = None) as Hnew
    by (apply not_elem_of_dom, is_fresh).
  rewrite push_all. simpl app.
  rewrite lookup_insert_eq. simpl default.
  destruct (Nat.ltb_spec 1 (length runs)) as [_|H]; [|lia].
  destruct (generateComparisonReport_reported testResults
              (<[testResults := runs]> st) runs) as
    (bestL & restL & bestT & restT & bs & EL & ET & _ & E);
    [apply lookup_insert_eq | done |].
  rewrite E, <- EL in *. clear E.
  rewrite insert_insert_eq.
  set (copy := fresh (dom (<[testResults := Array_sort later_by_latency runs]> st))).
  assert (copy ∉ dom (<[testResults := Array_sort later_by_latency runs]> st))
    as Hfresh by apply is_fresh.
  assert (copy <> testResults) as Hne.
  { intros Heq. apply Hfresh. rewrite Heq, dom_insert. set_solver. }
  assert (st !! copy = None) as Hcopy.
  { apply not_elem_of_dom in Hfresh. by rewrite lookup_insert_ne in Hfresh. }
  eexists testResults, _, _. split; [reflexivity|].
  assert ((<[copy := bestT :: restT]>
             (<[testResults := Array_sort later_by_latency runs]> st)) !! testResults
          = Some (Array_sort later_by_latency runs)) as Hafter
    by (by rewrite lookup_insert_ne, lookup_insert_eq).
  repeat split; try done.
  - by rewrite push_all, lookup_insert_eq.
  - apply Array_sort_perm.
  - apply latency_order_sorted.
  - intros Hunsorted Heq. rewrite Hafter in Heq. injection Heq as Heq.
    apply Hunsorted. rewrite <- Heq. apply latency_order_sorted.
  - intros other [x Hx].
    rewrite !lookup_insert_ne; [done | congruence | congruence].
Qed.

(** Five scenarios that did not run in order of latency: after the
    comparison the shared array is no longer in execution order. *)
Lemma comparison_sorts_shared_array_witness :
  exists testResults st' r,
    runTests_compare A4 Samples.five ∅ = (testResults, (st', Reported r)) /\
    st' !! testResults <> Some Samples.five.
Proof.
  destruct (comparison_sorts_shared_array Samples.five ∅)
    as (testResults & st' & r & E & _ & _ & Hafter & _ & _ & Hmoved & _).
  - vm_compute. lia.
  - exists testResults, st', r. split; [exact E|].
    apply Hmoved. intros Hs.
    apply StronglySorted_inv in Hs as [_ Hall].
    apply Forall_inv in Hall. vm_compute in Hall. by apply Hall.
Defined.

Example runTests_five_order :
  option_map (map name)
    (fst (snd (runTests_compare A4 Samples.five ∅)) !! fst (runTests_compare A4 Samples.five ∅))
  = Some ["home"; "search"; "checkout"; "login"; "cart"].
Proof. vm_compute. reflexivity. Qed.

(** ** The colours of the two comparison charts *)

(** The colours of the throughput chart are the gradient reversed:
    whatever the scenarios, its first bar has the last colour of the
    gradient and its last bar the first. *)
Lemma throughput_chart_colours (testResults : loc) (st : Store)
    (before : list Scenario) :
  st !! testResults = Some before ->
  2 <= length before ->
  exists st' r,
    generateComparisonReport A4 testResults st = (st', Reported r) /\
    backgroundColor (latencyCompChart r) = generateColorGradient (length before) /\
    backgroundColor (reqCompChart r) = reverse (generateColorGradient (length before)) /\
    head (backgroundColor (reqCompChart r)) =
      Some {| red := 255; green := 0; blue := 0; alpha := "0.6" |} /\
    last (backgroundColor (reqCompChart r)) =
      Some {| red := 75; green := 75; blue := 192; alpha := "0.6" |}.
Proof.
  intros Hst Hlen.
  destruct (generateComparisonReport_reported testResults st before Hst Hlen)
    as (bestL & restL & bestT & restT & bs & EL & ET & _ & E).
  assert (length (bestL :: restL) = length before) as Hn
    by (by rewrite <- EL, Array_sort_length).
  eexists _, _. split; [exact E|]. cbn [backgroundColor latencyCompChart reqCompChart].
  rewrite Hn. split; [done|]. split; [done|].
  rewrite generateColorGradient_map. split.
  - rewrite head_reverse, last_lookup, length_map, length_seq, list_lookup_fmap.
    rewrite lookup_seq_lt by lia. simpl.
    replace (Init.Nat.pred (length before)) with (length before - 1) by lia.
    by rewrite gradient_step_last.
  - rewrite last_reverse. destruct (length before) as [|n] eqn:En; [lia|].
    simpl. by rewrite gradient_step_first.
Qed.

(** C3 on the example of the specification, A (10 ms, 500 req/s) and
    B (20 ms, 300 req/s): both charts list A first; in the latency chart
    A has the first colour of the gradient and B the last, in the
    throughput chart the colours are reversed, so that A, the best
    throughput, has the red end and B the other end, which is the one
    closer to green. *)
Theorem throughput_chart_best_is_red :
  option_map
    (fun r => (labels (latencyCompChart r), map css (backgroundColor (latencyCompChart r)),
               labels (reqCompChart r), map css (backgroundColor (reqCompChart r))))
    (report_of (snd (generateComparisonReport A4 1%positive
                       {[ 1%positive := [Samples.scenarioA; Samples.scenarioB] ]}))) =
  Some (["A"; "B"], ["rgba(75, 75, 192, 0.6)"; "rgba(255, 0, 0, 0.6)"],
        ["A"; "B"], ["rgba(255, 0, 0, 0.6)"; "rgba(75, 75, 192, 0.6)"]) /\
  greener {| red := 75; green := 75; blue := 192; alpha := "0.6" |}
          {| red := 255; green := 0; blue := 0; alpha := "0.6" |}.
Proof. split; [vm_compute; reflexivity | vm_compute; done]. Qed.

(** ** The timeline of per-second counts *)

Lemma traverse_get_object (props : list (string * value)) (keys : list string) :
  traverse (fun key => get (VObject props) key) keys =
  Normal (map (fun key => default VUndefined (assoc key props)) keys).
Proof.
  induction keys as [|k keys IH]; [done|].
  cbn [traverse map]. rewrite IH. done.
Qed.

(** Reading every own key of an object gives back its properties. *)
Lemma assoc_own_keys (props : list (string * value)) :
  NoDup (map fst props) ->
  map (fun key => (key, default VUndefined (assoc key props))) (map fst props) = props.
Proof.
  induction props as [|[k v] props IH]; simpl; intros Hnd; [done|].
  apply NoDup_cons in Hnd as [Hk Hnd].
  rewrite String.eqb_refl. simpl. f_equal.
  rewrite <- (IH Hnd) at 2.
  apply map_ext_in. intros k' Hk'.
  destruct (String.eqb_spec k' k) as [->|_]; [|done].
  exfalso. apply Hk. by apply list_elem_of_In.
Qed.

Lemma second_key_roundtrip (key : string) :
  second_key key -> string_of_N (key_second key) = key.
Proof. intros (n & _ & ->). by rewrite key_second_string_of_N. Qed.

Lemma second_key_parseInt (key : string) :
  second_key key -> parseInt key = Num (inject_Z (Z.of_N (key_second key))).
Proof.
  intros (n & Hn & ->). by rewrite parseInt_string_of_N, key_second_string_of_N.
Qed.

Lemma later_key_seconds (a b : string) :
  second_key a -> second_key b ->
  later_key a b = (key_second b <? key_second a)%N.
Proof.
  intros Ha Hb. unfold later_key.
  rewrite (second_key_parseInt a Ha), (second_key_parseInt b Hb).
  unfold sub, gt_zero. simpl Qnum.
  destruct (N.ltb_spec (key_second b) (key_second a));
    [apply Z.ltb_lt | apply Z.ltb_ge]; lia.
Qed.

#[local] Instance seconds_le_trans : Transitive seconds_le.
Proof. intros a b c. unfold seconds_le. lia. Qed.

Lemma sorted_keys_ascending (keys : list string) :
  Forall second_key keys ->
  StronglySorted seconds_le (Array_sort later_key keys).
Proof.
  apply (Array_sort_sorted_on later_key seconds_le second_key); [apply _ | |].
  - intros a b Ha Hb. rewrite later_key_seconds by done.
    intros H%N.ltb_ge. done.
  - intros a b Ha Hb. rewrite later_key_seconds by done.
    intros H%N.ltb_lt. unfold seconds_le. lia.
Qed.

(** Distinct second keys stand for distinct seconds, so an ascending
    list without repetition is strictly ascending. *)
Lemma strictly_ascending_seconds (keys : list string) :
  Forall second_key keys -> NoDup keys ->
  StronglySorted seconds_le keys ->
  StronglySorted N.lt (map key_second keys).
Proof.
  intros Hkeys Hnd Hs. induction Hs as [|k keys Hs IH Hall]; simpl; [constructor|].
  apply Forall_cons in Hkeys as [Hk Hkeys].
  apply NoDup_cons in Hnd as [Hnotin Hnd].
  constructor; [by apply IH|].
  rewrite Forall_forall. intros n Hn.
  apply list_elem_of_In, in_map_iff in Hn as (k' & <- & Hin).
  apply list_elem_of_In in Hin.
  assert (seconds_le k k') as Hle by (rewrite Forall_forall in Hall; by apply Hall).
  assert (second_key k') as Hk' by (rewrite Forall_forall in Hkeys; by apply Hkeys).
  assert (key_second k <> key_second k') as Hne.
  { intros Heq. apply Hnotin.
    rewrite <- (second_key_roundtrip k Hk), Heq, (second_key_roundtrip k' Hk'). done. }
  unfold seconds_le in Hle. lia.
Qed.

(** C1: when the result carries a non-empty per-second mapping the
    timeline is built from it alone: its labels are the seconds of the
    mapping in strictly ascending order, each followed by "s", its
    entries are the keys of the mapping paired with their counts, one
    for each key and no other (no second is filled in), so that its
    length is the number of keys. *)
Theorem timeline_from_per_second_counts (result : value)
    (props : list (string * value)) :
  get result "requestsTimeline" = Normal (VObject props) ->
  props <> [] ->
  per_second_mapping props ->
  exists tl seconds,
    timeline result = Normal tl /\
    length (timeLabels tl) = length props /\
    length (timelineData tl) = length props /\
    timeLabels tl = map (fun n => string_of_N n +:+ "s") seconds /\
    StronglySorted N.lt seconds /\
    zip (map string_of_N seconds) (timelineData tl) ≡ₚ props.
Proof.
  intros Hget Hne [Hnd Hkeys].
  set (keys := Array_sort later_key (map fst props)).
  assert (keys ≡ₚ map fst props) as Hperm by apply Array_sort_perm.
  assert (Forall second_key keys) as Hsk by (by rewrite Hperm).
  assert (map string_of_N (map key_second keys) = keys) as Hback.
  { rewrite map_map. rewrite <- (map_id keys) at 2.
    apply map_ext_in. intros k Hk. apply second_key_roundtrip.
    rewrite Forall_forall in Hsk. by apply Hsk, list_elem_of_In. }
  exists {| timeLabels := map (fun key => key +:+ "s") keys;
            timelineData :=
              map (fun key => default VUndefined (assoc key props)) keys |},
         (map key_second keys).
  split; [|split; [|split; [|split; [|split]]]].
  - unfold timeline, sampled_timeline. rewrite Hget. simpl.
    assert (Nat.ltb 0 (length (map fst props)) = true) as ->.
    { apply Nat.ltb_lt. rewrite length_map. destruct props; [done | simpl; lia]. }
    unfold push_keys. rewrite traverse_get_object. simpl.
    fold keys. rewrite length_map.
    assert (Nat.eqb (length keys) 0 = false) as ->; [|done].
    apply Nat.eqb_neq. unfold keys. rewrite Array_sort_length, length_map.
    destruct props; [done | simpl; lia].
  - simpl. by rewrite length_map, Hperm, length_map.
  - simpl. by rewrite length_map, Hperm, length_map.
  - simpl. rewrite <- Hback at 1. by rewrite map_map.
  - apply strictly_ascending_seconds; [done | by rewrite Hperm |].
    by apply sorted_keys_ascending.
  - simpl. rewrite Hback.
    assert (zip keys (map (fun key => default VUndefined (assoc key props)) keys)
            = map (fun key => (key, default VUndefined (assoc key props))) keys) as ->.
    { clear. induction keys as [|k keys IH]; simpl; [done | by rewrite IH]. }
    trans (map (fun key => (key, default VUndefined (assoc key props)))
             (map fst props)).
    + by apply Permutation_map.
    + by rewrite assoc_own_keys.
Qed.

(** The timeline of a result with counts for the seconds 0, 2 and 10. *)
Lemma timeline_from_per_second_counts_witness :
  exists tl seconds,
    timeline Samples.result_with_timeline = Normal tl /\
    timeLabels tl = map (fun n => string_of_N n +:+ "s") seconds /\
    StronglySorted N.lt seconds.
Proof.
  destruct (timeline_from_per_second_counts Samples.result_with_timeline
              [("0", of_Z 3); ("2", of_Z 5); ("10", of_Z 7)])
    as (tl & seconds & E & _ & _ & Hlabels & Hsorted & _).
  - reflexivity.
  - discriminate.
  - split.
    + apply (bool_decide_unpack _). vm_compute. reflexivity.
    + repeat constructor;
        [exists 0%N | exists 2%N | exists 10%N]; split; reflexivity.
  - by exists tl, seconds.
Defined.

Example timeline_sampled :
  timeline Samples.result_with_timeline =
  Normal {| timeLabels := ["0s"; "2s"; "10s"];
            timelineData := [of_Z 3; of_Z 5; of_Z 7] |}.
Proof. reflexivity. Qed.

(** The mapping runTest builds from the responses of a run is such a
    per-second mapping. *)
Lemma update_property_keys (k : string) (v : value) (props : list (string * value)) :
  map fst (update_property k v props) = map fst props.
Proof.
  induction props as [|[k' v'] props IH]; simpl; [done|].
  destruct (String.eqb_spec k k') as [->|Hne]; simpl; [done | by rewrite IH].
Qed.

Lemma create_property_keys (k : string) (v : value) (props : list (string * value)) :
  map fst (create_property k v props) ≡ₚ k :: map fst props.
Proof.
  induction props as [|[k' v'] props IH]; simpl; [done|].
  destruct (listed_before k k'); simpl; [done|].
  rewrite IH. apply Permutation_swap.
Qed.

Lemma assoc_None_keys (k : string) (props : list (string * value)) :
  assoc k props = None <-> k ∉ map fst props.
Proof.
  induction props as [|[k' v'] props IH]; simpl.
  - split; [intros _; apply not_elem_of_nil | done].
  - rewrite not_elem_of_cons, <- IH.
    destruct (String.eqb_spec k k') as [->|Hne]; [|tauto].
    split; [done | by intros [? _]].
Qed.

Lemma set_property_keys (k : string) (v : value) (props : list (string * value)) :
  map fst (set_property k v props) ≡ₚ
  if bool_decide (k ∈ map fst props) then map fst props else k :: map fst props.
Proof.
  unfold set_property. destruct (assoc k props) as [v0|] eqn:E.
  - rewrite update_property_keys, bool_decide_eq_true_2; [done|].
    destruct (decide (k ∈ map fst props)) as [Hin|Hnotin]; [done|].
    apply assoc_None_keys in Hnotin. congruence.
  - rewrite create_property_keys, bool_decide_eq_false_2; [done|].
    by apply assoc_None_keys.
Qed.

Lemma set_property_mapping (n : N) (v : value) (props : list (string * value)) :
  (n < 2 ^ 53)%N ->
  per_second_mapping props ->
  per_second_mapping (set_property (string_of_N n) v props).
Proof.
  intros Hn [Hnd Hkeys]. unfold per_second_mapping.
  rewrite set_property_keys. case_bool_decide as Hin; [done|].
  split.
  - by apply NoDup_cons.
  - constructor; [by exists n | done].
Qed.

Lemma count_responses_mapping (arrivals : list N) :
  Forall (fun n => (n < 2 ^ 53)%N) arrivals ->
  per_second_mapping (count_responses arrivals).
Proof.
  unfold count_responses.
  assert (per_second_mapping []) as Hinit by (split; constructor).
  revert Hinit. generalize (@nil (string * value)) as props.
  induction arrivals as [|n arrivals IH]; intros props Hprops Hall; simpl; [done|].
  apply Forall_cons in Hall as [Hn Hall].
  apply IH; [|done]. unfold on_response.
  apply set_property_mapping; [done|].
  destruct (truthy _); [done | by apply set_property_mapping].
Qed.

(** Properties are listed with the array indices first, in ascending
    order, whatever the order they were set in. *)
Example set_property_order :
  map fst (set_property "2" (of_Z 1) (set_property "total" (of_Z 1)
            (set_property "10" (of_Z 1) (set_property "average" (of_Z 1)
              (set_property "3" (of_Z 1) []))))) =
  ["2"; "3"; "10"; "average"; "total"] /\
  count_responses [3; 1; 3; 0]%N = [("0", of_Z 1); ("1", of_Z 1); ("3", of_Z 2)].
Proof. split; vm_compute; reflexivity. Qed.

Example count_responses_ex :
  count_responses [0; 0; 1; 3; 3; 3]%N =
  [("0", of_Z 2); ("1", of_Z 1); ("3", of_Z 3)].
Proof. reflexivity. Qed.

(** ** The fallback timeline *)

Lemma traverse_average (result requests average : value) (seconds : list nat) :
  get result "requests" = Normal requests ->
  get requests "average" = Normal average ->
  traverse (fun i =>
      requests ← get result "requests";
      average ← get requests "average";
      Normal (string_of_N (N.of_nat i) +:+ "s", average)) seconds =
  Normal (map (fun i => (string_of_N (N.of_nat i) +:+ "s", average)) seconds).
Proof.
  intros Hr Ha. induction seconds as [|i seconds IH]; [done|].
  cbn [traverse map]. rewrite IH, Hr. simpl. rewrite Ha. done.
Qed.

(** No samples: the per-second mapping is missing, falsy or without
    keys, and [result.requests] is an object without numeric keys. *)
Lemma sampled_timeline_none (result requestsTimeline : value)
    (requests : list (string * value)) :
  get result "requestsTimeline" = Normal requestsTimeline ->
  truthy requestsTimeline = false \/ Object_keys requestsTimeline = Normal [] ->
  get result "requests" = Normal (VObject requests) ->
  Forall (fun key => parseInt key = NaN) (map fst requests) ->
  sampled_timeline result = Normal no_timeline.
Proof.
  intros Hrt Hempty Hrq Hkeys. unfold sampled_timeline. rewrite Hrt. simpl.
  assert ((keys ← (if truthy requestsTimeline
                   then Object_keys requestsTimeline else Normal []);
           Normal (truthy requestsTimeline && Nat.ltb 0 (length keys)))
          = Normal false) as Hcond.
  { destruct Hempty as [-> | E]; [done|].
    destruct (truthy requestsTimeline); [by rewrite E | done]. }
  destruct (if truthy requestsTimeline then Object_keys requestsTimeline else Normal [])
    as [keys|e] eqn:Ek; simpl in Hcond; [|done].
  injection Hcond as Hcond. cbn [mbind completion_bind bind]. rewrite Hcond.
  rewrite Hrq. simpl.
  assert (List.filter (fun key => negb (isNaN (parseInt key))) (map fst requests) = [])
    as ->; [|done].
  induction Hkeys as [|k ks Hk _ IH]; simpl; [done|]. by rewrite Hk.
Qed.

(** With a duration in the result the fallback is flat: one entry per
    whole second of the duration, each the reported average. *)
Lemma timeline_fallback_flat (result duration requests average : value)
    (sampled : Timeline) :
  sampled_timeline result = Normal sampled ->
  timelineData sampled = [] ->
  get result "duration" = Normal duration ->
  truthy duration = true ->
  get result "requests" = Normal requests ->
  get requests "average" = Normal average ->
  timeline result =
  Normal {| timeLabels :=
              map (fun i => string_of_N (N.of_nat i) +:+ "s") (seq 1 (turns duration));
            timelineData := replicate (turns duration) average |}.
Proof.
  intros Hs Hnone Hd Ht Hr Ha. unfold timeline. rewrite Hs. simpl.
  rewrite Hnone. simpl. unfold fallback_timeline, fallback_duration.
  rewrite Hd. simpl. rewrite Ht. simpl.
  rewrite (traverse_average result requests average _ Hr Ha). simpl.
  f_equal. f_equal.
  - by rewrite map_map.
  - rewrite map_map. simpl. generalize 1.
    induction (turns duration) as [|n IH]; intros start; simpl; [done|].
    by rewrite IH.
Qed.

(** Without a duration in the result the fallback reads [config], which
    is not bound. *)
Lemma timeline_fallback_unbound_config (result duration : value)
    (sampled : Timeline) :
  sampled_timeline result = Normal sampled ->
  timelineData sampled = [] ->
  get result "duration" = Normal duration ->
  truthy duration = false ->
  timeline result = Throw (ReferenceError "config").
Proof.
  intros Hs Hnone Hd Ht. unfold timeline. rewrite Hs. simpl.
  rewrite Hnone. simpl. unfold fallback_timeline, fallback_duration.
  rewrite Hd. simpl. rewrite Ht. done.
Qed.

(** C2 at a result without samples and without a duration (the shape of
    a result whose duration is missing or 0): the fallback does not
    reach the configuration or the default 30, it throws; with the
    duration 3.06 in the result it gives the three entries 1s, 2s, 3s,
    each the average. *)
Theorem timeline_fallback_without_duration :
  timeline Samples.result_without_duration = Throw (ReferenceError "config") /\
  generateCharts Samples.result_without_duration = Throw (ReferenceError "config") /\
  timeline Samples.result_with_duration =
    Normal {| timeLabels := ["1s"; "2s"; "3s"];
              timelineData := [of_Z 100; of_Z 100; of_Z 100] |}.
Proof. repeat split; reflexivity. Qed.

(** ** Status codes *)

Lemma generateCharts_statusCodes (result : value) (charts : ChartSet) :
  generateCharts result = Normal charts ->
  statusCodesChart result = Normal (statusCodes charts).
Proof.
  unfold generateCharts. intros H.
  repeat match type of H with
         | context [mbind _ ?c] => destruct c; simpl in H; [|done]
         end.
  by injection H as <-.
Qed.

(** C7: what the code does with the status-code statistics of a result
    object.  When they are missing or falsy there is neither a pie chart
    nor a status-code part in the section, and nothing throws.  When
    they are truthy but have no entries (an empty mapping, a number,
    true) the chart is suppressed, by the emptiness check of
    generateCharts, but the section, whose guard lacks that check, still
    prints the heading "Status Codes:" with no line under it.  When they
    are a non-empty mapping the pie chart has its keys, in the order of
    the mapping, as categories and its values as data, and the section
    lists them under the heading. *)
Theorem statusCodes_chart_and_section (fields : list (string * value)) :
  let result := VObject fields in
  let stats := default VUndefined (assoc "statusCodeStats" fields) in
  let errors := default VUndefined (assoc "errors" fields) in
  let heading :=
    [Text "Errors and Status Codes:";
     Line "Errors: " (if truthy errors then errors else of_Z 0) ""] in
  (truthy stats = false ->
     statusCodesChart result = Normal None /\
     errors_section result = Normal heading) /\
  (truthy stats = true -> Object_entries stats = Normal [] ->
     statusCodesChart result = Normal None /\
     errors_section result = Normal (heading ++ [Text "Status Codes:"])%list) /\
  (forall props, stats = VObject props -> props <> [] ->
     statusCodesChart result =
       Normal (Some {| pie_labels := map fst props; pie_data := map snd props |}) /\
     errors_section result =
       Normal (heading ++ Text "Status Codes:" ::
               map (fun e => Line ("  " +:+ fst e +:+ ": ") (snd e) "") props)%list).
Proof.
  intros result stats errors heading.
  unfold statusCodesChart, errors_section. subst result. cbn [get mbind completion_bind bind].
  fold stats. fold errors.
  split; [|split].
  - intros ->. done.
  - intros -> Hentries. unfold Object_keys. rewrite Hentries. done.
  - intros props -> Hne. simpl.
    assert (Nat.ltb 0 (length (map fst props)) = true) as ->; [|done].
    destruct props; [done | reflexivity].
Qed.

(** The pie chart of a result with the status codes 200 and 404. *)
Lemma statusCodes_chart_and_section_witness :
  statusCodesChart Samples.result_two_statusCodes =
    Normal (Some {| pie_labels := ["200"; "404"]; pie_data := [of_Z 950; of_Z 50] |}).
Proof.
  pose proof (statusCodes_chart_and_section
           [("latency", Samples.latency_stats); ("requests", Samples.request_stats);
            ("throughput", Samples.throughput_stats);
            ("duration", of_Z 2);
            ("statusCodeStats", VObject [("200", of_Z 950); ("404", of_Z 50)])]) as H.
  cbv zeta in H. destruct H as (_ & _ & H).
  destruct (H [("200", of_Z 950); ("404", of_Z 50)]) as [Hchart _];
    [reflexivity | discriminate | exact Hchart].
Defined.

(** The two parts are the ones the document is made of: it has the pie
    chart exactly when [statusCodesChart] gives one, and it ends with
    the section. *)
Lemma result_pages_statusCodes (result : value) (pages : list item) :
  result_pages result = Normal pages ->
  exists charts sections last_section,
    generateCharts result = Normal charts /\
    statusCodesChart result = Normal (statusCodes charts) /\
    errors_section result = Normal last_section /\
    pages = (summary charts ++ sections ++ last_section)%list.
Proof.
  unfold result_pages. intros H.
  destruct (generateCharts result) as [charts|] eqn:Ec; simpl in H; [|done].
  destruct (measured_sections result) as [sections|]; simpl in H; [|done].
  destruct (errors_section result) as [last_section|]; simpl in H; [|done].
  injection H as <-. exists charts, sections, last_section.
  repeat split; try done. by apply generateCharts_statusCodes.
Qed.

(** The document of a result whose statistics are an empty mapping: it
    has no pie chart, but its last section ends with the heading
    "Status Codes:". *)
Lemma statusCodes_empty_mapping_heading :
  result_pages Samples.result_empty_statusCodes =
    Normal [Text "Test Results Summary";
            Image (LatencyImage [of_Z 1; VNumber (Num (1234 # 100)); of_Z 90;
                                 VNumber (Num (31 # 10))]);
            Image (RequestsImage
                     {| timeLabels := ["1s"; "2s"];
                        timelineData := [of_Z 100; of_Z 100] |});
            Text "Detailed Test Results"; Text "Latency:";
            Line "Min: " (of_Z 1) " ms"; Line "Max: " (of_Z 90) " ms";
            Text "Average: 12.34 ms"; Text "Std Dev: 3.10 ms";
            Text "Requests:"; Line "Total: " (of_Z 1000) "";
            Text "Average: 100.00 req/sec";
            Text "Throughput:"; Text "Total: 1.00 MB"; Text "Average: 50.00 KB/sec";
            Text "Errors and Status Codes:"; Line "Errors: " (of_Z 4) "";
            Text "Status Codes:"] /\
  statusCodesChart Samples.result_empty_statusCodes = Normal None /\
  exists section,
    errors_section Samples.result_empty_statusCodes = Normal section /\
    Text "Status Codes:" ∈ section.
Proof.
  split; [reflexivity|]. split; [reflexivity|].
  eexists. split; [reflexivity|].
  do 2 (apply elem_of_cons; right). apply elem_of_cons. by left.
Qed.

(** * Further properties of the code *)

(** ** The timeline, whatever the result *)

Lemma traverse_length {A B : Type} (f : A -> completion B) (l : list A) (ys : list B) :
  traverse f l = Normal ys -> length ys = length l.
Proof.
  revert ys. induction l as [|x l IH]; intros ys; simpl.
  - by intros [= <-].
  - destruct (f x) as [y|]; simpl; [|done].
    destruct (traverse f l) as [ys'|]; simpl; [|done].
    intros [= <-]. simpl. by rewrite (IH ys').
Qed.

Lemma push_keys_lengths (o : value) (timeKeys : list string) (tl : Timeline) :
  push_keys o timeKeys = Normal tl ->
  length (timeLabels tl) = length timeKeys /\
  length (timelineData tl) = length timeKeys.
Proof.
  unfold push_keys.
  destruct (traverse (fun key => get o key) timeKeys) as [samples|] eqn:E;
    simpl; [|done].
  intros [= <-]. simpl. rewrite length_map. split; [done|].
  by apply traverse_length in E.
Qed.

Lemma sampled_timeline_lengths (result : value) (tl : Timeline) :
  sampled_timeline result = Normal tl ->
  length (timeLabels tl) = length (timelineData tl).
Proof.
  unfold sampled_timeline.
  destruct (get result "requestsTimeline") as [rt|]; simpl; [|done].
  destruct (if truthy rt then Object_keys rt else Normal []) as [keys|]; simpl; [|done].
  destruct (truthy rt && Nat.ltb 0 (length keys)).
  - intros H. apply push_keys_lengths in H as [-> ->]. done.
  - destruct (get result "requests") as [rq|]; simpl; [|done].
    destruct (truthy rq && typeof_object rq); [|by intros [= <-]].
    destruct (Object_keys rq) as [ks|]; simpl; [|done].
    destruct (Nat.ltb 0 _); [|by intros [= <-]].
    intros H. apply push_keys_lengths in H as [-> ->]. done.
Qed.

(** X1: whatever the result, when the timeline is built its two arrays
    have the same length: every label of the requests chart has its
    data point, on the sampled paths and on the fallback. *)
Theorem timeline_labels_match_data (result : value) (tl : Timeline) :
  timeline result = Normal tl ->
  length (timeLabels tl) = length (timelineData tl).
Proof.
  unfold timeline.
  destruct (sampled_timeline result) as [sampled|] eqn:Es; simpl; [|done].
  destruct (Nat.eqb (length (timelineData sampled)) 0).
  - unfold fallback_timeline.
    destruct (fallback_duration result) as [duration|]; simpl; [|done].
    destruct (traverse _ _) as [entries|]; simpl; [|done].
    intros [= <-]. simpl. by rewrite !length_map.
  - intros [= <-]. by apply (sampled_timeline_lengths result).
Qed.

(** The invariant on the result with counts for the seconds 0, 2, 10. *)
Lemma timeline_labels_match_data_witness :
  exists tl,
    timeline Samples.result_with_timeline = Normal tl /\
    length (timeLabels tl) = length (timelineData tl).
Proof.
  eexists. split; [reflexivity|].
  apply (timeline_labels_match_data Samples.result_with_timeline). reflexivity.
Defined.

(** The timeline a non-empty object gives, in closed form. *)
Lemma timeline_of_object (result : value) (props : list (string * value)) :
  get result "requestsTimeline" = Normal (VObject props) ->
  props <> [] ->
  timeline result =
  Normal {| timeLabels :=
              map (fun key => key +:+ "s") (Array_sort later_key (map fst props));
            timelineData :=
              map (fun key => default VUndefined (assoc key props))
                (Array_sort later_key (map fst props)) |}.
Proof.
  intros Hget Hne. unfold timeline, sampled_timeline. rewrite Hget. simpl.
  assert (Nat.ltb 0 (length (map fst props)) = true) as ->.
  { apply Nat.ltb_lt. rewrite length_map. destruct props; [done | simpl; lia]. }
  unfold push_keys. rewrite traverse_get_object. simpl.
  rewrite length_map, Array_sort_length, length_map.
  destruct props; [done | reflexivity].
Qed.

Lemma zip_map_r {A B : Type} (f : A -> B) (l : list A) :
  zip l (map f l) = map (fun x => (x, f x)) l.
Proof. induction l as [|x l IH]; simpl; [done | by rewrite IH]. Qed.

(** X2: a requestsTimeline that is an object with at least one property
    decides the timeline on its own, whatever its keys are and whatever
    else the result holds: nothing throws, result.requests and
    result.duration are not consulted, and the entries are the
    properties of the object, each once, with the label key + "s". *)
Theorem timeline_prefers_requestsTimeline (result : value)
    (props : list (string * value)) :
  get result "requestsTimeline" = Normal (VObject props) ->
  props <> [] ->
  NoDup (map fst props) ->
  exists tl keys,
    timeline result = Normal tl /\
    keys ≡ₚ map fst props /\
    timeLabels tl = map (fun key => key +:+ "s") keys /\
    zip keys (timelineData tl) ≡ₚ props.
Proof.
  intros Hget Hne Hnd.
  eexists _, (Array_sort later_key (map fst props)).
  split; [exact (timeline_of_object result props Hget Hne)|].
  split; [apply Array_sort_perm|]. split; [done|]. simpl.
  rewrite zip_map_r.
  trans (map (fun key => (key, default VUndefined (assoc key props))) (map fst props)).
  - apply Permutation_map, Array_sort_perm.
  - by rewrite assoc_own_keys.
Qed.

(** A mapping whose keys are names: the entries are its properties. *)
Lemma timeline_prefers_requestsTimeline_witness :
  exists tl keys,
    timeline Samples.result_with_named_keys = Normal tl /\
    keys ≡ₚ ["warmup"; "steady"] /\
    timeLabels tl = map (fun key => key +:+ "s") keys.
Proof.
  destruct (timeline_prefers_requestsTimeline Samples.result_with_named_keys
              [("warmup", of_Z 4); ("steady", of_Z 9)])
    as (tl & keys & E & Hkeys & Hlabels & _).
  - reflexivity.
  - discriminate.
  - apply (bool_decide_unpack _). vm_compute. reflexivity.
  - by exists tl, keys.
Defined.

(** ** The numeric keys of result.requests *)

(** Every decimal numeral is a numeric key, a name that starts with a
    letter is none. *)
Lemma numeric_key_numeral (n : N) : numeric_key (string_of_N n) = true.
Proof.
  unfold numeric_key. rewrite parseInt_digits_only.
  - by rewrite parse_string_of_N.
  - by apply render_digits_digits_only.
  - apply render_digits_nonempty.
Qed.

Lemma numeric_key_name (c : ascii) (rest : string) :
  is_letter c = true -> numeric_key (String c rest) = false.
Proof.
  destruct c as [[|] [|] [|] [|] [|] [|] [|] [|]]; try discriminate; intros _; reflexivity.
Qed.

(** X3: without a usable requestsTimeline (missing, falsy or without
    keys), a result.requests that is an object with at least one key
    that parseInt reads gives the timeline: its entries are exactly the
    keys that parseInt reads, with their values (a key reads when, after
    leading white space, a sign and a 0x prefix, it starts with a digit).
    Every key that is a decimal numeral is among them; the statistics,
    whose names start with a letter, are left out; and the fallback is
    not used. *)
Theorem timeline_from_numbered_requests (result requestsTimeline : value)
    (requests : list (string * value)) :
  get result "requestsTimeline" = Normal requestsTimeline ->
  truthy requestsTimeline = false \/ Object_keys requestsTimeline = Normal [] ->
  get result "requests" = Normal (VObject requests) ->
  List.filter numeric_key (map fst requests) <> [] ->
  exists tl keys,
    timeline result = Normal tl /\
    keys ≡ₚ List.filter numeric_key (map fst requests) /\
    timeLabels tl = map (fun key => key +:+ "s") keys /\
    timelineData tl = map (fun key => default VUndefined (assoc key requests)) keys /\
    (forall n, string_of_N n ∈ map fst requests -> string_of_N n ∈ keys) /\
    (forall c rest, is_letter c = true -> String c rest ∉ keys).
Proof.
  intros Hrt Hempty Hrq Hnum.
  set (keys := Array_sort later_key (List.filter numeric_key (map fst requests))).
  assert (keys ≡ₚ List.filter numeric_key (map fst requests)) as Hperm
    by apply Array_sort_perm.
  assert (length keys <> 0) as Hlen.
  { rewrite Hperm.
    destruct (List.filter numeric_key (map fst requests)); [done | simpl; lia]. }
  exists {| timeLabels := map (fun key => key +:+ "s") keys;
            timelineData := map (fun key => default VUndefined (assoc key requests)) keys |},
         keys.
  split; [|split; [done | split; [done | split; [done | split]]]].
  - unfold timeline, sampled_timeline. rewrite Hrt. simpl.
    assert ((keys ← (if truthy requestsTimeline
                     then Object_keys requestsTimeline else Normal []);
             Normal (truthy requestsTimeline && Nat.ltb 0 (length keys)))
            = Normal false) as Hcond.
    { destruct Hempty as [-> | E]; [done|].
      destruct (truthy requestsTimeline); [by rewrite E | done]. }
    destruct (if truthy requestsTimeline then Object_keys requestsTimeline else Normal [])
      as [ks|e] eqn:Ek; simpl in Hcond; [|done].
    injection Hcond as Hcond. cbn [mbind completion_bind bind]. rewrite Hcond.
    rewrite Hrq. simpl. fold numeric_key. fold keys.
    destruct (Nat.ltb_spec 0 (length keys)) as [_|H0]; [|lia].
    unfold push_keys. rewrite traverse_get_object. simpl. rewrite length_map.
    destruct (Nat.eqb_spec (length keys) 0); [lia | done].
  - intros n Hn. rewrite Hperm. apply list_elem_of_In, filter_In.
    split; [by apply list_elem_of_In | apply numeric_key_numeral].
  - intros c rest Hc Hin. rewrite Hperm in Hin.
    apply list_elem_of_In, filter_In in Hin as [_ Hin].
    by rewrite numeric_key_name in Hin.
Qed.

(** Numbered keys 0 and 1 beside average and total. *)
Lemma timeline_from_numbered_requests_witness :
  exists tl keys,
    timeline Samples.result_with_numbered_requests = Normal tl /\
    keys ≡ₚ ["0"; "1"] /\
    timeLabels tl = map (fun key => key +:+ "s") keys.
Proof.
  destruct (timeline_from_numbered_requests Samples.result_with_numbered_requests
              VUndefined
              [("0", of_Z 3); ("1", of_Z 5); ("average", of_Z 4); ("total", of_Z 8)])
    as (tl & keys & E & Hkeys & Hlabels & _).
  - reflexivity.
  - by left.
  - reflexivity.
  - discriminate.
  - by exists tl, keys.
Defined.

(** Which keys are numeric: a numeral, also after white space (the
    no-break space included), a sign or 0x; not a name, not a sign alone. *)
Example numeric_key_ex :
  map numeric_key
    ["0"; "17"; " 7"; String (ascii_of_N 160) "7"; "-3"; "0x1f"; "12abc";
     "average"; "p99"; ""; "-"; "0x"; ".5"; "Infinity"] =
  [true; true; true; true; true; true; true;
   false; false; false; false; false; false; false].
Proof. vm_compute. reflexivity. Qed.

(** ** The fallback with the duration of the result *)

Lemma filter_nil_Forall {A : Type} (f : A -> bool) (l : list A) :
  List.filter f l = [] -> Forall (fun x => f x = false) l.
Proof.
  induction l as [|x l IH]; simpl; [constructor|].
  destruct (f x) eqn:E; [done|]. intros H. constructor; [done | by apply IH].
Qed.

(** X4: a result without samples whose duration is a number other than
    0, below 2^32, gets the flat timeline from the result alone: one
    entry for each whole second of the duration, labelled 1s, 2s, ...,
    each the average of result.requests; a duration of 3.06 gives three
    entries, and a duration below 1 gives a timeline without any entry. *)
Theorem timeline_fallback_with_duration (result requestsTimeline : value) (duration : Q)
    (requests : list (string * value)) :
  get result "requestsTimeline" = Normal requestsTimeline ->
  truthy requestsTimeline = false \/ Object_keys requestsTimeline = Normal [] ->
  get result "requests" = Normal (VObject requests) ->
  List.filter numeric_key (map fst requests) = [] ->
  get result "duration" = Normal (VNumber (Num duration)) ->
  ~ (duration == 0)%Q ->
  (duration < inject_Z (2 ^ 32))%Q ->
  timeline result =
    Normal {| timeLabels :=
                map (fun i => string_of_N (N.of_nat i) +:+ "s")
                  (seq 1 (Z.to_nat (Qfloor duration)));
              timelineData :=
                replicate (Z.to_nat (Qfloor duration))
                  (default VUndefined (assoc "average" requests)) |} /\
  ((duration < 1)%Q -> Z.to_nat (Qfloor duration) = 0).
Proof.
  intros Hrt Hempty Hrq Hnum Hd Ht _. split.
  - apply (timeline_fallback_flat result (VNumber (Num duration)) (VObject requests)
             (default VUndefined (assoc "average" requests)) no_timeline);
      try done.
    + apply (sampled_timeline_none result requestsTimeline requests); try done.
      apply filter_nil_Forall in Hnum.
      eapply Forall_impl; [exact Hnum|]. intros key Hkey. unfold numeric_key in Hkey.
      by destruct (parseInt key).
    + simpl. unfold Qeqb0. apply negb_true_iff, Z.eqb_neq.
      intros H0. apply Ht. unfold Qeq. simpl. lia.
  - intros Hlt.
    assert (Qfloor duration < 1)%Z; [|lia].
    rewrite Zlt_Qlt. eapply Qle_lt_trans; [apply Qfloor_le | done].
Qed.

(** The result with the duration 3.06: three entries. *)
Lemma timeline_fallback_with_duration_witness :
  timeline Samples.result_with_duration =
    Normal {| timeLabels := ["1s"; "2s"; "3s"];
              timelineData := [of_Z 100; of_Z 100; of_Z 100] |}.
Proof.
  apply (timeline_fallback_with_duration Samples.result_with_duration VUndefined
           (306 # 100) [("average", of_Z 100); ("total", of_Z 1000)]);
    try reflexivity; [by left | discriminate].
Defined.

(** ** The counter of responses *)

Lemma assoc_set_property_eq (k : string) (v : value) (props : list (string * value)) :
  assoc k (set_property k v props) = Some v.
Proof.
  unfold set_property. destruct (assoc k props) as [v0|] eqn:E.
  - induction props as [|[k' v'] props IH]; simpl in *; [done|].
    destruct (String.eqb_spec k k') as [->|Hne]; simpl.
    + by rewrite String.eqb_refl.
    + destruct (String.eqb_spec k k'); [done | by apply IH].
  - induction props as [|[k' v'] props IH]; simpl in *.
    + by rewrite String.eqb_refl.
    + destruct (String.eqb_spec k k') as [->|Hne]; [done|].
      destruct (listed_before k k'); simpl.
      * by rewrite String.eqb_refl.
      * destruct (String.eqb_spec k k'); [done | by apply IH].
Qed.

Lemma assoc_set_property_ne (k k' : string) (v : value) (props : list (string * value)) :
  k <> k' -> assoc k' (set_property k v props) = assoc k' props.
Proof.
  intros Hne. unfold set_property. destruct (assoc k props) as [v0|].
  - induction props as [|[k0 v0'] props IH]; simpl; [done|].
    destruct (String.eqb_spec k k0) as [->|Hk0]; simpl.
    + destruct (String.eqb_spec k' k0); [congruence | done].
    + destruct (String.eqb_spec k' k0); [done | exact IH].
  - induction props as [|[k0 v0'] props IH]; simpl.
    + destruct (String.eqb_spec k' k); [congruence | done].
    + destruct (listed_before k k0); simpl.
      * destruct (String.eqb_spec k' k); [congruence | done].
      * destruct (String.eqb_spec k' k0); [done | exact IH].
Qed.

Lemma string_of_N_inj (m n : N) : string_of_N m = string_of_N n -> m = n.
Proof.
  intros H. apply (f_equal key_second) in H.
  by rewrite !key_second_string_of_N in H.
Qed.

Lemma on_response_same (n : N) (props : list (string * value)) (c : nat) :
  holds_count props n c -> holds_count (on_response n props) n (S c).
Proof.
  unfold holds_count, on_response. destruct c as [|c].
  - intros ->. simpl. rewrite assoc_set_property_eq. simpl.
    rewrite assoc_set_property_eq. eexists. split; [reflexivity | done].
  - intros (q & Hassoc & Hq). cbv zeta. rewrite Hassoc. simpl.
    assert (negb (Qeqb0 q) = true) as Htruthy.
    { unfold Qeqb0. apply negb_true_iff, Z.eqb_neq.
      intros H0. unfold Qeq in Hq. simpl in Hq. rewrite H0 in Hq. lia. }
    rewrite Htruthy, Hassoc. simpl.
    rewrite assoc_set_property_eq.
    eexists. split; [reflexivity|]. rewrite Hq.
    rewrite <- (inject_Z_plus _ 1). apply inject_Z_injective. lia.
Qed.

Lemma on_response_other (m n : N) (props : list (string * value)) (c : nat) :
  m <> n -> holds_count props n c -> holds_count (on_response m props) n c.
Proof.
  intros Hne. unfold on_response.
  assert (string_of_N m <> string_of_N n) as Hkeys
    by (intros H; by apply Hne, string_of_N_inj).
  assert (forall v p, holds_count p n c ->
            holds_count (set_property (string_of_N m) v p) n c) as Hset.
  { intros v p. unfold holds_count.
    destruct c; by rewrite assoc_set_property_ne. }
  intros H. apply Hset. destruct (truthy _); [done | by apply Hset].
Qed.

Lemma count_responses_from (arrivals : list N) (n : N)
    (props : list (string * value)) (c : nat) :
  holds_count props n c ->
  holds_count
    (foldl (fun requestsPerSecond second => on_response second requestsPerSecond)
       props arrivals)
    n (c + length (List.filter (N.eqb n) arrivals)).
Proof.
  revert props c. induction arrivals as [|m arrivals IH]; intros props c H; simpl.
  - by rewrite Nat.add_0_r.
  - destruct (N.eqb_spec n m) as [<-|Hne].
    + simpl. rewrite Nat.add_succ_r. apply (IH _ (S c)).
      by apply on_response_same.
    + apply IH. apply on_response_other; [congruence | done].
Qed.

(** X5: the counter of runTest counts every response once, under the
    second it arrived in: after the responses of a run the mapping has
    no property for a second without response, and for any other second
    it holds the number of responses of that second. *)
Theorem count_responses_counts (arrivals : list N) (n : N) :
  (length (List.filter (N.eqb n) arrivals) = 0 ->
     assoc (string_of_N n) (count_responses arrivals) = None) /\
  (0 < length (List.filter (N.eqb n) arrivals) ->
     exists q,
       assoc (string_of_N n) (count_responses arrivals) = Some (VNumber (Num q)) /\
       (q == inject_Z (Z.of_nat (length (List.filter (N.eqb n) arrivals))))%Q).
Proof.
  pose proof (count_responses_from arrivals n [] 0 eq_refl) as H.
  fold (count_responses arrivals) in H. simpl in H.
  unfold holds_count in H.
  destruct (length (List.filter (N.eqb n) arrivals)) as [|c]; split; try done; lia.
Qed.

(** Six responses in the seconds 0, 0, 1, 3, 3, 3: three in second 3. *)
Lemma count_responses_counts_witness :
  exists q,
    assoc "3" (count_responses [0; 0; 1; 3; 3; 3]%N) = Some (VNumber (Num q)) /\
    (q == 3)%Q.
Proof.
  apply (count_responses_counts [0; 0; 1; 3; 3; 3]%N 3%N). simpl. lia.
Defined.

(** ** Page checks in a row *)

(** X6: a page check adds at most one page and never changes the page
    format.  On the page it has just added, the same check is satisfied
    when the required height is at most the height between the margins;
    a required height above that is never satisfied: the check adds a
    further page every time. *)
Theorem checkAndAddPage_on_new_page (requiredHeight : Q) (doc : Doc) :
  page (fst (checkAndAddPage requiredHeight doc)) = page doc /\
  page_count doc <= page_count (fst (checkAndAddPage requiredHeight doc))
    <= S (page_count doc) /\
  ((requiredHeight <=
    page_height (page doc) - margin_bottom (page doc) - margin_top (page doc))%Q /\
   checkAndAddPage requiredHeight (addPage doc) = (addPage doc, false)
   \/
   (page_height (page doc) - margin_bottom (page doc) - margin_top (page doc)
    < requiredHeight)%Q /\
   checkAndAddPage requiredHeight (addPage doc) = (addPage (addPage doc), true)).
Proof.
  split; [|split].
  - unfold checkAndAddPage. by destruct (negb _).
  - unfold checkAndAddPage. destruct (negb _); simpl; lia.
  - unfold checkAndAddPage. simpl.
    destruct (Qle_bool requiredHeight
                (page_height (page doc) - margin_bottom (page doc) - margin_top (page doc)))
      eqn:E; simpl.
    + left. split; [by apply Qle_bool_iff | done].
    + right. split; [|done].
      apply Qnot_le_lt. intros H. apply Qle_bool_iff in H. congruence.
Qed.

(** ** Shortened names *)

Lemma substring_to_length_le (n : nat) (s : string) :
  String.length (substring_to n s) <= n.
Proof.
  unfold substring_to. revert s.
  induction n as [|n IH]; intros [|c s]; simpl; try lia.
  specialize (IH s). lia.
Qed.

(** X7: getShortenedName leaves a name of at most maxLength characters
    as it is; a longer name becomes its first maxLength - 3 characters
    (none when maxLength is below 3) followed by three dots, which has
    max(maxLength, 3) characters.  The tick labels of both charts are
    the names shortened to 15. *)
Theorem getShortenedName_length (name : string) (maxLength : nat) :
  (String.length name <= maxLength -> getShortenedName name maxLength = name) /\
  (maxLength < String.length name ->
     getShortenedName name maxLength = substring_to (maxLength - 3) name +:+ "..." /\
     String.prefix (substring_to (maxLength - 3) name) name = true /\
     String.length (getShortenedName name maxLength) = Nat.max maxLength 3) /\
  String.length (getShortenedName name maxLength)
    <= Nat.max (Nat.min (String.length name) maxLength) 3 /\
  tick_label name = getShortenedName name 15.
Proof.
  unfold getShortenedName, tick_label.
  split; [|split; [|split]]; try done.
  - intros H. by rewrite (proj2 (Nat.ltb_ge _ _) H).
  - intros H. rewrite (proj2 (Nat.ltb_lt _ _) H).
    split; [done|]. split; [apply substring_to_prefix|].
    rewrite length_append, length_substring_to by lia. simpl. lia.
  - destruct (Nat.ltb_spec maxLength (String.length name)).
    + rewrite length_append, length_substring_to by lia. simpl. lia.
    + lia.
Qed.

(** A name of 30 characters shortened for the callout. *)
Lemma getShortenedName_length_witness :
  String.length
    (getShortenedName "checkout-with-a-very-long-name" 25) = Nat.max 25 3.
Proof.
  apply (getShortenedName_length "checkout-with-a-very-long-name" 25).
  simpl. lia.
Defined.

(** ** File names *)

Import Files.

Lemma chars_all_append (P : ascii -> bool) (s1 s2 : string) :
  chars_all P (s1 +:+ s2) = chars_all P s1 && chars_all P s2.
Proof.
  induction s1 as [|c s1 IH]; simpl; [done|].
  by rewrite IH, andb_assoc.
Qed.

Lemma chars_all_impl (P Q : ascii -> bool) (s : string) :
  (forall c, P c = true -> Q c = true) ->
  chars_all P s = true -> chars_all Q s = true.
Proof.
  intros HPQ. induction s as [|c s IH]; simpl; [done|].
  intros [Hc Hs]%andb_true_iff. rewrite (HPQ c Hc). by apply IH.
Qed.

Lemma sanitize_chars (name : string) :
  chars_all (fun c => alphanumeric c || Ascii.eqb c "-") (sanitize name) = true.
Proof.
  induction name as [|c name IH]; simpl; [done|]. rewrite IH, andb_true_r.
  destruct (alphanumeric c) eqn:E; [by rewrite E | done].
Qed.

Lemma digits_only_alphanumeric (s : string) :
  digits_only s -> chars_all alphanumeric s = true.
Proof.
  induction s as [|c s IH]; simpl; [done|].
  intros [(d & Hd & ->) Hs]. rewrite (IH Hs), andb_true_r.
  each_digit Hd; reflexivity.
Qed.

Lemma string_of_N_alphanumeric (n : N) : chars_all alphanumeric (string_of_N n) = true.
Proof. apply digits_only_alphanumeric. by apply render_digits_digits_only. Qed.

(** X8: the file names of the JSON result and of the report are made of
    ASCII letters, digits, "-" and "." only, whatever the name of the
    scenario, so they hold no path separator; sanitizing keeps the
    length of the name, changes nothing in a name of letters and digits,
    and changes nothing when applied twice. *)
Theorem file_names_are_safe (name : string) (now : N) :
  chars_all file_name_char (results_file_name name now) = true /\
  chars_all file_name_char (report_file_name name now) = true /\
  chars_all (fun c => negb (Ascii.eqb c "/")) (report_file_name name now) = true /\
  String.length (sanitize name) = String.length name /\
  sanitize (sanitize name) = sanitize name /\
  (chars_all alphanumeric name = true -> sanitize name = name).
Proof.
  assert (forall ext, chars_all file_name_char ext = true ->
            chars_all file_name_char
              (sanitize name +:+ "-" +:+ string_of_N now +:+ ext) = true) as Hsafe.
  { intros ext Hext. rewrite !chars_all_append, Hext, andb_true_r.
    apply andb_true_iff. split; [|apply andb_true_iff; split; [done|]].
    - eapply chars_all_impl; [|apply sanitize_chars].
      intros c Hc. unfold file_name_char. by rewrite Hc.
    - eapply chars_all_impl; [|apply string_of_N_alphanumeric].
      intros c Hc. unfold file_name_char. by rewrite Hc. }
  split; [by apply Hsafe|]. split; [by apply Hsafe|]. split; [|split; [|split]].
  - eapply chars_all_impl; [|by apply (Hsafe ".pdf")].
    intros c Hc. destruct (Ascii.eqb_spec c "/") as [->|]; [done | done].
  - clear Hsafe. induction name as [|c name IH]; simpl; [done | by rewrite IH].
  - clear Hsafe. induction name as [|c name IH]; simpl; [done|]. rewrite IH.
    destruct (alphanumeric c) eqn:E; [by rewrite E | done].
  - clear Hsafe. induction name as [|c name IH]; simpl; [done|].
    intros [Hc Hs]%andb_true_iff. by rewrite Hc, IH.
Qed.

Example report_file_name_ex :
  report_file_name "GET /api/users?id=1" 1700000000000 =
  "GET--api-users-id-1-1700000000000.pdf".
Proof. reflexivity. Qed.

(** ** The list of reports *)

#[local] Instance newest_first_trans : Transitive newest_first.
Proof. intros a b c. unfold newest_first. lia. Qed.

(** X9: the list of /reports holds the entries of the directory whose
    name ends with ".pdf", each once and no other, newest first, each
    with the path /reports/ followed by its name. *)
Theorem report_links_newest_first (entries : list DirEntry) :
  StronglySorted newest_first (report_links entries) /\
  map (fun l => (link_name l, created l)) (report_links entries) ≡ₚ
    map (fun f => (entry_name f, entry_ctime f))
      (List.filter (fun f => endsWith (entry_name f) ".pdf") entries) /\
  Forall (fun l => endsWith (link_name l) ".pdf" = true /\
                   link_path l = "/reports/" +:+ link_name l)
    (report_links entries).
Proof.
  unfold report_links. split; [|split].
  - apply (Array_sort_sorted_on _ _ (fun _ => True)); [apply _ | | |].
    + intros a b _ _ H. unfold later_created in H. apply Z.ltb_ge in H.
      unfold newest_first. lia.
    + intros a b _ _ H. unfold later_created in H. apply Z.ltb_lt in H.
      unfold newest_first. lia.
    + by apply Forall_true.
  - rewrite Array_sort_perm, map_map. done.
  - rewrite Array_sort_perm. rewrite Forall_forall. intros l Hl.
    apply list_elem_of_In, in_map_iff in Hl as (f & <- & Hf).
    apply filter_In in Hf as [_ Hf]. done.
Qed.

Example report_links_ex :
  list_reports
    (Some [{| entry_name := "json"; entry_ctime := 5 |};
           {| entry_name := "a-1.pdf"; entry_ctime := 10 |};
           {| entry_name := "notes.txt"; entry_ctime := 30 |};
           {| entry_name := "b-2.pdf"; entry_ctime := 20 |}]) =
  Reports [{| link_name := "b-2.pdf"; link_path := "/reports/b-2.pdf"; created := 20 |};
           {| link_name := "a-1.pdf"; link_path := "/reports/a-1.pdf"; created := 10 |}].
Proof. reflexivity. Qed.

(** ** Merging a scenario with the default settings *)

Import Scenarios.

Lemma assoc_spread (props : list (string * value)) (source : value) (k : string) :
  NoDup (map fst (spread_source source)) ->
  assoc k (spread props source) =
  match assoc k (spread_source source) with
  | Some v => Some v
  | None => assoc k props
  end.
Proof.
  unfold spread. generalize (spread_source source) as src. clear source.
  intros src. revert props.
  induction src as [|[k0 v0] src IH]; intros props Hnd; simpl; [done|].
  apply NoDup_cons in Hnd as [Hk0 Hnd]. rewrite IH by done.
  destruct (String.eqb_spec k k0) as [->|Hne].
  - assert (assoc k0 src = None) as ->.
    { clear -Hk0. induction src as [|[k1 v1] src IH]; simpl; [done|].
      destruct (String.eqb_spec k0 k1) as [->|_].
      - exfalso. apply Hk0. simpl. apply elem_of_cons. by left.
      - apply IH. intros H. apply Hk0. simpl. apply elem_of_cons. by right. }
    by rewrite assoc_set_property_eq.
  - destruct (assoc k src); [done|]. by rewrite assoc_set_property_ne.
Qed.

(** X10: the configuration a scenario runs with.  For a default-settings
    object and a scenario object, nothing throws; every setting other
    than headers is the scenario's when the scenario has it and the
    default otherwise; headers is always an object, in which every
    header is the scenario's when the scenario has it and the default's
    otherwise (a missing headers object contributes nothing). *)
Theorem mergedConfig_overlay (defaults scenario : list (string * value)) :
  NoDup (map fst defaults) ->
  NoDup (map fst scenario) ->
  NoDup (map fst (spread_source (default VUndefined (assoc "headers" defaults)))) ->
  NoDup (map fst (spread_source (default VUndefined (assoc "headers" scenario)))) ->
  exists merged headers,
    mergedConfig (VObject defaults) (VObject scenario) = Normal (VObject merged) /\
    (forall k, k <> "headers" ->
       assoc k merged =
       match assoc k scenario with
       | Some v => Some v
       | None => assoc k defaults
       end) /\
    assoc "headers" merged = Some (VObject headers) /\
    (forall h,
       assoc h headers =
       match assoc h (spread_source (default VUndefined (assoc "headers" scenario))) with
       | Some v => Some v
       | None =>
           assoc h (spread_source (default VUndefined (assoc "headers" defaults)))
       end).
Proof.
  intros Hd Hs Hdh Hsh. unfold mergedConfig. simpl.
  eexists _, _. split; [reflexivity|]. split; [|split].
  - intros k Hk. rewrite assoc_set_property_ne by done.
    rewrite assoc_spread by done. simpl.
    destruct (assoc k scenario); [done|].
    rewrite assoc_spread by done. simpl. by destruct (assoc k defaults).
  - apply assoc_set_property_eq.
  - intros h. rewrite assoc_spread by done.
    destruct (assoc h (spread_source (default VUndefined (assoc "headers" scenario))));
      [done|].
    rewrite assoc_spread by done. simpl.
    by destruct (assoc h (spread_source (default VUndefined (assoc "headers" defaults)))).
Qed.

(** A scenario that overrides the duration and one header. *)
Lemma mergedConfig_overlay_witness :
  exists merged headers,
    mergedConfig (VObject Samples.default_settings)
      (VObject Samples.scenario_settings) = Normal (VObject merged) /\
    assoc "headers" merged = Some (VObject headers).
Proof.
  destruct (mergedConfig_overlay Samples.default_settings Samples.scenario_settings)
    as (merged & headers & E & _ & Hh & _).
  - apply (bool_decide_unpack _). vm_compute. reflexivity.
  - apply (bool_decide_unpack _). vm_compute. reflexivity.
  - apply (bool_decide_unpack _). vm_compute. reflexivity.
  - apply (bool_decide_unpack _). vm_compute. reflexivity.
  - by exists merged, headers.
Defined.

Example mergedConfig_ex :
  mergedConfig (VObject Samples.default_settings) (VObject Samples.scenario_settings) =
  Normal (VObject
    [("connections", of_Z 10); ("duration", of_Z 5);
     ("headers", VObject [("accept", of_Z 1); ("authorization", of_Z 3)])]).
Proof. reflexivity. Qed.

(** ** The channels of the gradient *)

Lemma Math_round_range (x : Q) (lo hi : Z) :
  (inject_Z lo <= x)%Q -> (x <= inject_Z hi)%Q ->
  (lo <= Math_round x <= hi)%Z.
Proof.
  intros Hlo Hhi. unfold Math_round. split.
  - rewrite <- (Qfloor_Z lo). apply Qfloor_resp_le. lra.
  - assert (Qfloor (x + (1 # 2)) < hi + 1)%Z; [|lia].
    rewrite Zlt_Qlt. eapply Qle_lt_trans; [apply Qfloor_le|].
    rewrite inject_Z_plus. change (inject_Z 1) with 1%Q. lra.
Qed.

Lemma gradient_ratio_range (count i : nat) :
  i < count ->
  (0 <= inject_Z (Z.of_nat i) / inject_Z (ratio_divisor count) <= 1)%Q.
Proof.
  intros Hi.
  assert (0 < ratio_divisor count /\ Z.of_nat i <= ratio_divisor count)%Z as [Hd Hle].
  { unfold ratio_divisor. destruct (Z.eqb_spec (Z.of_nat count - 1) 0); lia. }
  assert (0 < inject_Z (ratio_divisor count))%Q as Hd'
    by (change 0%Q with (inject_Z 0); by rewrite <- Zlt_Qlt).
  split.
  - apply Qle_shift_div_l; [done|]. rewrite Qmult_0_l.
    change 0%Q with (inject_Z 0). rewrite <- Zle_Qle. lia.
  - apply Qle_shift_div_r; [done|]. rewrite Qmult_1_l. by rewrite <- Zle_Qle.
Qed.

Lemma gradient_step_alpha (count i : nat) : alpha (gradient_step count i) = "0.6".
Proof. unfold gradient_step. by destruct (Qltb _ _). Qed.

(** Between two doubles the rounding stays. *)
Lemma double_range (lo hi x : Q) :
  double lo = lo -> double hi = hi -> (lo <= x <= hi)%Q -> (lo <= double x <= hi)%Q.
Proof.
  intros Hlo Hhi [H1 H2]. split.
  - rewrite <- Hlo. by apply double_mono.
  - rewrite <- Hhi. by apply double_mono.
Qed.

Ltac rounded_between lo hi :=
  apply (double_range lo hi); [vm_compute; reflexivity | vm_compute; reflexivity |].

(** X11: every colour of the gradient is a colour: for any number of
    scenarios each of its red, green and blue channels is an integer
    from 0 to 255, and its opacity is 0.6. *)
Theorem generateColorGradient_channels (count : nat) :
  Forall (fun c => channels_in_range c /\ alpha c = "0.6")
    (generateColorGradient count).
Proof.
  rewrite generateColorGradient_map, Forall_forall. intros c Hc.
  apply list_elem_of_In, in_map_iff in Hc as (i & <- & Hi).
  apply in_seq in Hi as [_ Hi]. simpl in Hi.
  pose proof (gradient_ratio_range count i Hi) as Hexact.
  unfold gradient_step, channels_in_range.
  assert (0 <= fdiv (inject_Z (Z.of_nat i)) (inject_Z (ratio_divisor count)) <= 1)%Q
    as Hratio by (by rounded_between 0%Q 1%Q).
  set (ratio := fdiv (inject_Z (Z.of_nat i)) (inject_Z (ratio_divisor count))) in *.
  clearbody ratio. clear Hexact.
  assert (fsub 255 75 = 180%Q) as -> by (vm_compute; reflexivity).
  destruct (Qltb ratio (1 # 2)) eqn:E; simpl.
  - apply Qltb_true in E. split; [|done]. split; [lia|]. split; [|lia].
    assert (0 <= fmul ratio 2 <= 1)%Q as H1 by (rounded_between 0%Q 1%Q; lra).
    set (t1 := fmul ratio 2) in *. clearbody t1.
    assert (0 <= fmul 180 t1 <= 180)%Q as H2 by (rounded_between 0%Q 180%Q; lra).
    set (t2 := fmul 180 t1) in *. clearbody t2.
    assert (75 <= fadd 75 t2 <= 255)%Q as H3 by (rounded_between 75%Q 255%Q; lra).
    apply Math_round_range; unfold inject_Z; lra.
  - apply Qltb_false in E. split; [|done]. split; [lia|].
    assert (0 <= fsub ratio (1 # 2) <= 1 # 2)%Q as H1
      by (rounded_between 0%Q (1 # 2)%Q; lra).
    set (s1 := fsub ratio (1 # 2)) in *. clearbody s1.
    assert (0 <= fmul s1 2 <= 1)%Q as H2 by (rounded_between 0%Q 1%Q; lra).
    set (s2 := fmul s1 2) in *. clearbody s2.
    assert (0 <= fmul 255 s2 <= 255)%Q as H3 by (rounded_between 0%Q 255%Q; lra).
    set (s3 := fmul 255 s2) in *. clearbody s3.
    assert (0 <= fsub 255 s3 <= 255)%Q as H4 by (rounded_between 0%Q 255%Q; lra).
    set (g := fsub 255 s3) in *. clearbody g.
    assert (0 <= fmul g (1 # 2) <= 255 # 2)%Q as H5
      by (rounded_between 0%Q (255 # 2)%Q; lra).
    split; apply Math_round_range; unfold inject_Z; lra.
Qed.

(** ** The two comparison charts *)

(** X12: in both comparison charts the four arrays line up: there are
    exactly as many labels, values, fill colours and border colours as
    scenarios; the values are the averages of the scenarios in the order
    of the labels; and the border of every bar is its fill colour with
    opacity 1, in the throughput chart too, where both are reversed. *)
Theorem comparison_charts_line_up (testResults : loc) (st : Store)
    (before : list Scenario) :
  st !! testResults = Some before ->
  2 <= length before ->
  exists st' r latencyOrder throughputOrder,
    generateComparisonReport A4 testResults st = (st', Reported r) /\
    st' !! testResults = Some latencyOrder /\
    st' !! sortedByThroughput_ref r = Some throughputOrder /\
    zip (labels (latencyCompChart r)) (data (latencyCompChart r)) =
      map (fun t => (name t, lat_average (latency (result t)))) latencyOrder /\
    zip (labels (reqCompChart r)) (data (reqCompChart r)) =
      map (fun t => (name t, req_average (requests (result t)))) throughputOrder /\
    length (labels (latencyCompChart r)) = length before /\
    length (backgroundColor (latencyCompChart r)) = length before /\
    length (labels (reqCompChart r)) = length before /\
    length (backgroundColor (reqCompChart r)) = length before /\
    borderColor (latencyCompChart r) = map opaque (backgroundColor (latencyCompChart r)) /\
    borderColor (reqCompChart r) = map opaque (backgroundColor (reqCompChart r)) /\
    Forall (fun c => alpha c = "1") (borderColor (latencyCompChart r)) /\
    Forall (fun c => alpha c = "1") (borderColor (reqCompChart r)) /\
    length (data (latencyCompChart r)) = length before /\
    length (borderColor (latencyCompChart r)) = length before /\
    length (data (reqCompChart r)) = length before /\
    length (borderColor (reqCompChart r)) = length before.
Proof.
  intros Hst Hlen.
  destruct (generateComparisonReport_reported testResults st before Hst Hlen)
    as (bestL & restL & bestT & restT & bs & EL & ET & _ & E).
  set (copy := fresh (dom (<[testResults := bestL :: restL]> st))) in *.
  assert (copy <> testResults) as Hne.
  { intros Heq. apply (is_fresh (dom (<[testResults := bestL :: restL]> st))).
    fold copy. rewrite Heq, dom_insert. set_solver. }
  assert (length (bestL :: restL) = length before) as HnL
    by (by rewrite <- EL, Array_sort_length).
  assert (length (bestT :: restT) = length before) as HnT
    by (by rewrite <- ET, Array_sort_length).
  assert (forall n, Forall (fun c => alpha c = "1")
                      (map opaque (generateColorGradient n))) as Hopaque.
  { intros n. rewrite generateColorGradient_map, map_map, Forall_forall.
    intros c Hc. apply list_elem_of_In, in_map_iff in Hc as (i & <- & _).
    unfold opaque. simpl. by rewrite gradient_step_alpha. }
  eexists _, _, (bestL :: restL), (bestT :: restT).
  split; [exact E|].
  cbn [latencyCompChart reqCompChart labels data backgroundColor borderColor
       sortedByThroughput_ref].
  split; [by rewrite lookup_insert_ne, lookup_insert_eq|].
  split; [by rewrite lookup_insert_eq|].
  split; [|split].
  { generalize (bestL :: restL). intros l.
    induction l as [|t l IH]; simpl; [done | by rewrite IH]. }
  { generalize (bestT :: restT). intros l.
    induction l as [|t l IH]; simpl; [done | by rewrite IH]. }
  rewrite !length_map, length_reverse, generateColorGradient_length, HnL, HnT.
  repeat split; try done.
  - symmetry. apply fmap_reverse.
  - by apply Forall_reverse.
  - by rewrite length_reverse, length_map, generateColorGradient_length.
Qed.

(** The charts of A and B. *)
Lemma comparison_charts_line_up_witness :
  exists st' r,
    generateComparisonReport A4 1%positive
      {[ 1%positive := [Samples.scenarioA; Samples.scenarioB] ]} = (st', Reported r) /\
    borderColor (reqCompChart r) = map opaque (backgroundColor (reqCompChart r)).
Proof.
  destruct (comparison_charts_line_up 1%positive
              {[ 1%positive := [Samples.scenarioA; Samples.scenarioB] ]}
              [Samples.scenarioA; Samples.scenarioB])
    as (st' & r & lo & to & E & _ & _ & _ & _ & _ & _ & _ & _ & _ & Hb & _).
  - vm_compute. reflexivity.
  - simpl. lia.
  - by exists st', r.
Defined.

(** ** The number and width of the table batches *)

Lemma concat_length_le {A : Type} (bs : list (list A)) (m : nat) :
  Forall (fun b => length b <= m) bs -> length (concat bs) <= length bs * m.
Proof.
  induction 1 as [|b bs Hb _ IH]; simpl; [lia|].
  rewrite length_app. lia.
Qed.

(** X13: with a positive column capacity maxTests the table has
    ceil(n / maxTests) batches for n scenarios (the Y of "continued
    X/Y"); no batch is empty, and every batch before the last one has
    exactly maxTests columns. *)
Theorem tableBatches_count (testResults : list Scenario) (remaining : Q) (fuel : nat) :
  (0 < maxTests_for (length testResults) remaining)%Z ->
  length testResults < fuel ->
  exists batches,
    tableBatches fuel testResults remaining = Some batches /\
    length batches =
      (length testResults + (Z.to_nat (maxTests_for (length testResults) remaining) - 1))
      / Z.to_nat (maxTests_for (length testResults) remaining) /\
    Forall (fun b => b <> []) batches /\
    (forall k b, batches !! k = Some b -> S k < length batches ->
       length b = Z.to_nat (maxTests_for (length testResults) remaining)).
Proof.
  intros Hpos Hfuel. unfold tableBatches.
  set (m := Z.to_nat (maxTests_for (length testResults) remaining)).
  set (n := length testResults).
  assert (0 < m) as Hm by lia.
  destruct (batch_loop_slices testResults m Hm fuel 0 []) as (bs & E & Hcat & Hall & Hk);
    [lia|].
  simpl in E, Hcat.
  assert (forall k b, bs !! k = Some b -> k * m < n /\ length b = Nat.min m (n - k * m))
    as Hslice.
  { intros k b Hb. pose proof (Hk k b Hb) as Hs. simpl in Hs.
    rewrite slice_step in Hs.
    assert (length b = Nat.min m (n - k * m)) as Hl
      by (rewrite Hs, length_take, length_drop; done).
    split; [|done].
    rewrite Forall_forall in Hall.
    destruct (Hall b (list_elem_of_lookup_2 _ _ _ Hb)) as [_ Hne].
    destruct b; [done|]. simpl in Hl. lia. }
  exists bs. split; [done|]. split; [|split].
  - assert (n <= length bs * m) as Hupper.
    { unfold n. rewrite <- Hcat at 1. apply concat_length_le.
      eapply Forall_impl; [exact Hall|]. by intros b [? _]. }
    destruct (length bs) as [|L] eqn:EL.
    + assert (n = 0) as -> by lia. symmetry. apply Nat.div_small. lia.
    + destruct (lookup_lt_is_Some_2 bs L) as [b Hb]; [lia|].
      destruct (Hslice L b Hb) as [Hlow _].
      apply (Nat.div_unique _ _ _ (n + (m - 1) - m * S L)); nia.
  - eapply Forall_impl; [exact Hall|]. by intros b [_ ?].
  - intros k b Hb Hnext.
    destruct (lookup_lt_is_Some_2 bs (S k)) as [b' Hb']; [done|].
    destruct (Hslice (S k) b' Hb') as [Hlow _].
    destruct (Hslice k b Hb) as [_ ->]. nia.
Qed.

(** Five scenarios on the A4 page: two batches. *)
Lemma tableBatches_count_witness :
  exists batches,
    tableBatches 6 Samples.five (remainingWidth A4) = Some batches /\
    length batches = 2.
Proof.
  destruct (tableBatches_count Samples.five (remainingWidth A4) 6)
    as (bs & E & Hlen & _).
  - vm_compute. reflexivity.
  - vm_compute. lia.
  - exists bs. split; [exact E | exact Hlen].
Defined.

Import Table.

(** X14: with a positive column capacity every scenario column of the
    detail table is at least 70 wide, and the table of a batch, whose
    columns are at most maxTests, ends at or before the right margin of
    the page. *)
Theorem table_fits_page_width (pg : Page) (count columns : nat) :
  (0 < maxTests_for count (remainingWidth pg))%Z ->
  (Z.of_nat columns <= maxTests_for count (remainingWidth pg))%Z ->
  (70 <= dataColWidth pg count)%Q /\
  (table_right pg count columns <= page_width pg - margin_right pg)%Q.
Proof.
  intros Hpos Hcols. unfold table_right, dataColWidth.
  assert (remainingWidth pg == pageWidth pg - metricColWidth pg)%Q as Hrw
    by reflexivity.
  set (rw := remainingWidth pg) in *.
  set (m := maxTests_for count rw) in *.
  assert (0 < inject_Z m)%Q as Hm
    by (change 0%Q with (inject_Z 0); by rewrite <- Zlt_Qlt).
  assert (inject_Z m * 70 <= rw)%Q as Hcap.
  { assert (m <= Qfloor (rw / 70))%Z as Hfloor by (unfold m, maxTests_for, Math_floor; lia).
    rewrite Zle_Qle in Hfloor.
    assert (inject_Z m <= rw / 70)%Q as Hdiv
      by (eapply Qle_trans; [exact Hfloor | apply Qfloor_le]).
    apply (Qmult_le_r _ _ 70) in Hdiv; [|done].
    eapply Qle_trans; [exact Hdiv|]. apply Qle_lteq. right. field. }
  assert (0 <= rw)%Q as Hrw0 by (clearbody rw m; nra).
  split.
  - apply Qle_shift_div_l; [done|]. by rewrite Qmult_comm.
  - assert (rw / inject_Z m * inject_Z m == rw)%Q as Hd.
    { field. intros H0. rewrite H0 in Hm. by apply Qlt_irrefl in Hm. }
    assert (0 <= rw / inject_Z m)%Q as Hd0.
    { apply Qle_shift_div_l; [done|]. by rewrite Qmult_0_l. }
    assert (0 <= inject_Z (Z.of_nat columns) <= inject_Z m)%Q as [Hc0 Hc].
    { split; [change 0%Q with (inject_Z 0)|]; rewrite <- Zle_Qle; lia. }
    unfold pageWidth in Hrw.
    set (d := (rw / inject_Z m)%Q) in *.
    set (c := inject_Z (Z.of_nat columns)) in *.
    set (mq := inject_Z m) in *.
    clearbody d c mq rw. nra.
Qed.

(** Five scenarios on the A4 page: four columns of 86.674 each. *)
Lemma table_fits_page_width_witness :
  (70 <= dataColWidth A4 5)%Q /\
  (table_right A4 5 4 <= page_width A4 - margin_right A4)%Q.
Proof.
  apply (table_fits_page_width A4 5 4); vm_compute; congruence.
Defined.

(** ** The rows of the detail table *)

Lemma header_after_break_app (pg : Page) (a b : list mark) :
  header_after_break pg a -> header_after_break pg b ->
  header_after_break pg (a ++ b).
Proof.
  intros Ha Hb i Hi.
  destruct (decide (i < length a)) as [Hlt|Hge].
  - rewrite lookup_app_l in Hi by done.
    destruct (Ha i Hi) as (rowY & Hnext & Hy).
    exists rowY. split; [|done].
    rewrite lookup_app_l; [done|]. by apply lookup_lt_Some in Hnext.
  - rewrite lookup_app_r in Hi by lia.
    destruct (Hb _ Hi) as (rowY & Hnext & Hy).
    exists rowY. split; [|done].
    rewrite lookup_app_r by lia.
    by replace (S i - length a) with (S (i - length a)) by lia.
Qed.

(** One turn of the loop appends a block that holds the row of the
    metric, after a page break and the header when the row would not fit. *)
Lemma draw_row_block (st : table_state) (idx : nat) (metric : string) :
  (margin_top (page (doc st)) + 30 + 25 + rowHeight
   <= page_height (page (doc st)) - margin_bottom (page (doc st)))%Q ->
  exists block,
    marks (draw_row st (idx, metric)) = (marks st ++ block)%list /\
    rows_of block = [metric] /\
    Forall (row_fits (page (doc st))) block /\
    header_after_break (page (doc st)) block /\
    page (doc (draw_row st (idx, metric))) = page (doc st) /\
    page_count (doc (draw_row st (idx, metric))) = page_count (doc st) + breaks block /\
    breaks block <= 1.
Proof.
  intros Htall. unfold draw_row.
  destruct (Qle_bool (rowY st + rowHeight)
              (page_height (page (doc st)) - margin_bottom (page (doc st)))) eqn:E;
    cbn [negb].
  - apply Qle_bool_iff in E.
    exists ((if Nat.eqb (idx mod 2) 0 then [Shade (rowY st - 5)] else []) ++
            [Row metric (rowY st)])%list.
    cbn [marks doc rowY]. split; [done|].
    destruct (Nat.eqb (idx mod 2) 0); simpl.
    + split; [done|]. split; [apply Forall_cons; split; [done|apply Forall_singleton; exact E]|].
      split; [|split; [done|split; unfold breaks; simpl; lia]].
      intros [|[|i]] Hi; simplify_eq/=.
    + split; [done|]. split; [apply Forall_singleton; exact E|].
      split; [|split; [done|split; unfold breaks; simpl; lia]].
      intros [|i] Hi; simplify_eq/=.
  - exists ([NewPage; Header (margin_top (page (doc st)) + 30);
             Separator (margin_top (page (doc st)) + 30 + 15)] ++
            (if Nat.eqb (idx mod 2) 0
             then [Shade (margin_top (page (doc st)) + 30 + 15 + 10 - 5)] else []) ++
            [Row metric (margin_top (page (doc st)) + 30 + 15 + 10)])%list.
    cbn [marks doc rowY draw_header addPage page page_count].
    split; [by rewrite <- !app_assoc|].
    assert (margin_top (page (doc st)) + 30 + 15 + 10 + rowHeight
            <= page_height (page (doc st)) - margin_bottom (page (doc st)))%Q as Hfit.
    { eapply Qle_trans; [|exact Htall]. apply Qle_lteq. right. ring. }
    destruct (Nat.eqb (idx mod 2) 0); simpl.
    + split; [done|].
      split; [repeat (apply Forall_cons; split; [first [exact Hfit | done]|]); constructor|].
      split; [|split; [done|split; unfold breaks; simpl; lia]].
      intros [|[|[|[|[|i]]]]] Hi; simplify_eq/=. by eexists.
    + split; [done|].
      split; [repeat (apply Forall_cons; split; [first [exact Hfit | done]|]); constructor|].
      split; [|split; [done|split; unfold breaks; simpl; lia]].
      intros [|[|[|[|i]]]] Hi; simplify_eq/=. by eexists.
Qed.

Lemma draw_rows_marks (turns : list (nat * string)) (st : table_state) :
  (margin_top (page (doc st)) + 30 + 25 + rowHeight
   <= page_height (page (doc st)) - margin_bottom (page (doc st)))%Q ->
  Forall (row_fits (page (doc st))) (marks st) ->
  header_after_break (page (doc st)) (marks st) ->
  rows_of (marks (foldl draw_row st turns)) = (rows_of (marks st) ++ map snd turns)%list /\
  Forall (row_fits (page (doc st))) (marks (foldl draw_row st turns)) /\
  header_after_break (page (doc st)) (marks (foldl draw_row st turns)) /\
  page (doc (foldl draw_row st turns)) = page (doc st) /\
  page_count (doc (foldl draw_row st turns)) + breaks (marks st) =
    page_count (doc st) + breaks (marks (foldl draw_row st turns)) /\
  breaks (marks (foldl draw_row st turns)) <= breaks (marks st) + length turns.
Proof.
  revert st. induction turns as [|[idx metric] turns IH]; intros st Htall Hfits Hbreaks.
  - simpl. rewrite app_nil_r. repeat split; try done. lia.
  - destruct (draw_row_block st idx metric Htall)
      as (block & Hmarks & Hrows & Hfit & Hhead & Hpage & Hcount & Hone).
    cbn [foldl].
    destruct (IH (draw_row st (idx, metric))) as (Hr & Hf & Hh & Hp & Hc & Hb).
    + by rewrite Hpage.
    + rewrite Hpage, Hmarks. by apply Forall_app.
    + rewrite Hpage, Hmarks. by apply header_after_break_app.
    + rewrite Hpage in *.
      assert (breaks (marks (draw_row st (idx, metric))) = breaks (marks st) + breaks block)
        as Hbk.
      { rewrite Hmarks. unfold breaks. by rewrite List.filter_app, length_app. }
      split; [|split; [done|split; [done|split; [by rewrite Hp|split]]]].
      * rewrite Hr, Hmarks. unfold rows_of. rewrite omap_app.
        fold (rows_of (marks st)). fold (rows_of block). rewrite Hrows.
        by rewrite <- app_assoc.
      * lia.
      * change (length ((idx, metric) :: turns)) with (S (length turns)). lia.
Qed.

(** X15: the rows of the detail table on a page that has room for a
    header and one row between its margins: every metric gets its row,
    once and in order; no row ends below the bottom margin; every page
    the loop adds starts with the header of the table, 30 below the top
    margin; and the loop adds at most one page per row. *)
Theorem draw_table_rows_fit (d : Doc) (rows : list string) :
  (margin_top (page d) + 30 + 25 + rowHeight
   <= page_height (page d) - margin_bottom (page d))%Q ->
  rows_of (marks (draw_table d rows)) = rows /\
  Forall (row_fits (page d)) (marks (draw_table d rows)) /\
  header_after_break (page d) (marks (draw_table d rows)) /\
  page (doc (draw_table d rows)) = page d /\
  page_count (doc (draw_table d rows)) =
    page_count d + breaks (marks (draw_table d rows)) /\
  breaks (marks (draw_table d rows)) <= length rows.
Proof.
  intros Htall. unfold draw_table.
  set (st0 := draw_header {| doc := d; rowY := y d + 10; marks := [] |}).
  destruct (draw_rows_marks (imap (fun idx metric => (idx, metric)) rows) st0)
    as (Hr & Hf & Hh & Hp & Hc & Hb).
  - done.
  - by repeat constructor.
  - intros [|[|i]] Hi; simplify_eq/=.
  - assert (map snd (imap (fun idx metric => (idx, metric)) rows) = rows) as Hsnd.
    { clear. generalize 0. intros _.
      change (imap (fun idx metric => (idx, metric)) rows)
        with (imap (fun idx (metric : string) => (idx, metric)) rows).
      assert (forall (f : nat -> nat), map snd (imap (fun idx (metric : string) => (f idx, metric)) rows) = rows) as H.
      { induction rows as [|m rows IH]; intros f; simpl; [done|].
        f_equal. apply (IH (fun i => f (S i))). }
      apply (H (fun i => i)). }
    rewrite Hsnd, length_imap in *. simpl in Hr, Hb.
    change (breaks (marks st0)) with 0 in Hc.
    change (page_count (doc st0)) with (page_count d) in Hc.
    repeat split; try done; lia.
Qed.

(** The nine metrics from a cursor at 700 on the A4 page. *)
Lemma draw_table_rows_fit_witness :
  rows_of (marks (draw_table {| page := A4; page_count := 2; y := 700 |} metrics))
  = metrics.
Proof.
  apply (draw_table_rows_fit {| page := A4; page_count := 2; y := 700 |} metrics).
  vm_compute. congruence.
Defined.

(** From a cursor at 720 one of three rows fits (at 755); the other two
    are below a new header on the next page, at 105 and 125. *)
Example draw_table_ex :
  let st := draw_table {| page := A4; page_count := 2; y := 720 |}
              ["Min Latency (ms)"; "Avg Latency (ms)"; "Max Latency (ms)"] in
  breaks (marks st) = 1 /\ page_count (doc st) = 3 /\
  last (marks st) = Some (Row "Max Latency (ms)" (50 + 30 + 15 + 10 + 20)) /\
  (rowY st == 145)%Q.
Proof. repeat split; vm_compute; reflexivity. Qed.

(** ** A result that the charts accept and the document does not *)

(** X16: generateCharts only copies the latency statistics into the
    chart, but the detailed results print latency.average with
    toFixed(2): for a result whose latency.average is not a number
    (missing, null, an object) the charts are built and the document
    then fails with a TypeError. *)
Theorem result_pages_needs_average (result latency average : value)
    (charts : ChartSet) :
  generateCharts result = Normal charts ->
  get result "latency" = Normal latency ->
  get latency "average" = Normal average ->
  (forall n, average <> VNumber n) ->
  result_pages result = Throw TypeError.
Proof.
  intros Hcharts Hlat Havg Hnot. unfold result_pages. rewrite Hcharts. simpl.
  unfold measured_sections. rewrite Hlat. simpl.
  assert (exists vmin vmax, get latency "min" = Normal vmin /\
                            get latency "max" = Normal vmax) as (vmin & vmax & -> & ->).
  { destruct latency; try done; by eexists _, _. }
  simpl. rewrite Havg. simpl.
  assert (toFixed average = Throw TypeError) as ->; [|done].
  destruct average as [| | |n|]; try done. by destruct (Hnot n).
Qed.

(** A result without latency.average. *)
Lemma result_pages_needs_average_witness :
  result_pages Samples.result_without_latency_average = Throw TypeError.
Proof.
  eapply (result_pages_needs_average Samples.result_without_latency_average
            _ VUndefined); [reflexivity | reflexivity | reflexivity | done].
Defined.

(** ** Fewer than two scenarios *)

(** X17: runTests collects the completed scenarios in the order they
    ran; with fewer than two of them no comparison is made, and the
    list stays in that order. *)
Theorem runTests_without_comparison (pg : Page) (runs : list Scenario) (st : Store) :
  length runs <= 1 ->
  runTests_compare pg runs st =
  (fresh (dom st), (<[fresh (dom st) := runs]> st, NoReport)).
Proof.
  intros Hlen. unfold runTests_compare.
  rewrite push_all. simpl app. rewrite lookup_insert_eq. simpl default.
  by destruct (Nat.ltb_spec 1 (length runs)) as [H|_]; [lia|].
Qed.

(** One scenario. *)
Lemma runTests_without_comparison_witness :
  runTests_compare A4 [Samples.scenarioA] ∅ =
  (fresh (dom (∅ : Store)), (<[fresh (dom (∅ : Store)) := [Samples.scenarioA]]> ∅, NoReport)).
Proof.
  apply (runTests_without_comparison A4 [Samples.scenarioA] ∅). simpl. lia.
Defined.

(** ** Equal throughputs *)

Lemma later_by_throughput_lt (a b : Scenario) :
  later_by_throughput a b = true ->
  (req_average (requests (result a)) < req_average (requests (result b)))%Q.
Proof. intros H. apply Qltb_true in H. lra. Qed.

Lemma later_by_throughput_ge (a b : Scenario) :
  later_by_throughput a b = false ->
  (req_average (requests (result b)) <= req_average (requests (result a)))%Q.
Proof. intros H. apply Qltb_false in H. lra. Qed.

Lemma throughput_then_latency_le (a b : Scenario) :
  throughput_then_latency a b ->
  (req_average (requests (result b)) <= req_average (requests (result a)))%Q.
Proof. intros [H|[H _]]; lra. Qed.

Lemma insert_throughput_then_latency (x : Scenario) (l : list Scenario) :
  StronglySorted throughput_then_latency l ->
  Forall (ascending_latency x) l ->
  StronglySorted throughput_then_latency (insert_sorted later_by_throughput x l).
Proof.
  intros Hs Hx. induction Hs as [|y l Hs IH Hy]; simpl.
  - repeat constructor.
  - apply Forall_cons in Hx as [Hxy Hx].
    destruct (later_by_throughput x y) eqn:E.
    + constructor; [by apply IH|].
      rewrite insert_sorted_perm. constructor; [|done].
      left. by apply later_by_throughput_lt.
    + apply later_by_throughput_ge in E.
      constructor; [by constructor|].
      assert (forall z, ascending_latency x z ->
                (req_average (requests (result z))
                 <= req_average (requests (result x)))%Q ->
                throughput_then_latency x z) as Hlex.
      { intros z Hlat Hle. unfold throughput_then_latency.
        destruct (Qlt_le_dec (req_average (requests (result z)))
                    (req_average (requests (result x)))) as [Hlt|Hge];
          [by left|].
        right. split; [|done]. by apply Qle_antisym. }
      constructor; [by apply Hlex|].
      rewrite Forall_forall in Hx, Hy. apply Forall_forall. intros z Hz.
      apply Hlex; [by apply Hx|].
      pose proof (throughput_then_latency_le y z (Hy z Hz)). lra.
Qed.

Lemma sort_throughput_then_latency (l : list Scenario) :
  StronglySorted ascending_latency l ->
  StronglySorted throughput_then_latency (Array_sort later_by_throughput l).
Proof.
  induction 1 as [|x l Hs IH Hx]; simpl; [constructor|].
  apply insert_throughput_then_latency; [done|].
  by rewrite Array_sort_perm.
Qed.

#[local] Instance throughput_then_latency_refl : Reflexive throughput_then_latency.
Proof. intros a. right. split; [reflexivity | apply Qle_refl]. Qed.

(** X18: the throughput order is sorted from the array that is already
    in latency order, with a stable sort: it lists the scenarios by
    descending requests per second, and scenarios with the same
    requests per second by ascending latency.  Its first scenario
    therefore has the highest throughput of all and, among the scenarios
    with that throughput, the lowest latency, and it is the one the
    best-throughput callout names: the callout is "Best Throughput: ",
    its name (the first 22 characters and three dots when it has more
    than 25) and in brackets its requests per second to two decimals
    with the unit req/sec. *)
Theorem throughput_ties_by_latency (testResults : loc) (st : Store)
    (before : list Scenario) :
  st !! testResults = Some before ->
  2 <= length before ->
  exists st' r throughputOrder bestT shownT textT,
    generateComparisonReport A4 testResults st = (st', Reported r) /\
    st' !! sortedByThroughput_ref r = Some throughputOrder /\
    throughputOrder ≡ₚ before /\
    labels (reqCompChart r) = map name throughputOrder /\
    StronglySorted throughput_then_latency throughputOrder /\
    head throughputOrder = Some bestT /\
    (forall t, t ∈ before ->
       (req_average (requests (result t)) <= req_average (requests (result bestT)))%Q /\
       ((req_average (requests (result t)) == req_average (requests (result bestT)))%Q ->
        (lat_average (latency (result bestT)) <= lat_average (latency (result t)))%Q)) /\
    bestThroughput r =
      "Best Throughput: " +:+ shownT +:+ " (" +:+ textT +:+ " req/sec)" /\
    spec_shortened_name 25 (name bestT) shownT /\
    ((Qabs (req_average (requests (result bestT))) < inject_Z (10 ^ 21))%Q ->
       spec_two_decimals (req_average (requests (result bestT))) textT).
Proof.
  intros Hst Hlen.
  destruct (generateComparisonReport_reported testResults st before Hst Hlen)
    as (bestL & restL & bestT & restT & bs & EL & ET & _ & E).
  assert (bestT :: restT ≡ₚ before) as HpT
    by (by rewrite <- ET, Array_sort_perm, <- EL, Array_sort_perm).
  assert (StronglySorted throughput_then_latency (bestT :: restT)) as Hs.
  { rewrite <- ET. apply sort_throughput_then_latency.
    rewrite <- EL. apply latency_order_sorted. }
  eexists _, _, (bestT :: restT), bestT,
    (getShortenedName (name bestT) 25), (toFixed2 (req_average (requests (result bestT)))).
  split; [exact E|]. simpl.
  split; [by rewrite lookup_insert_eq|].
  repeat split; try done.
  - by apply throughput_then_latency_le, (sorted_head_bound _ _ restT _ Hs HpT).
  - intros Heq.
    destruct (sorted_head_bound _ _ restT _ Hs HpT t H) as [Hlt|[_ Hlat]]; [lra | done].
  - apply getShortenedName_spec.
  - intros _. apply toFixed2_spec.
Qed.

(** Two scenarios with the same throughput: the one with the lower
    latency is listed first although it ran second, and the callout
    names it. *)
Lemma throughput_ties_by_latency_witness :
  exists st' r throughputOrder bestT,
    generateComparisonReport A4 1%positive
      {[ 1%positive := [Samples.scenario "slow" 20 300; Samples.scenario "fast" 10 300] ]}
      = (st', Reported r) /\
    StronglySorted throughput_then_latency throughputOrder /\
    labels (reqCompChart r) = map name throughputOrder /\
    head throughputOrder = Some bestT.
Proof.
  destruct (throughput_ties_by_latency 1%positive
              {[ 1%positive := [Samples.scenario "slow" 20 300;
                                Samples.scenario "fast" 10 300] ]}
              [Samples.scenario "slow" 20 300; Samples.scenario "fast" 10 300])
    as (st' & r & order & bestT & shown & text & E & _ & _ & Hlabels & Hs & Hhead & _).
  - vm_compute. reflexivity.
  - simpl. lia.
  - by exists st', r, order, bestT.
Defined.

Example throughput_tie_ex :
  option_map (fun r => (labels (reqCompChart r), bestThroughput r))
    (report_of (snd (generateComparisonReport A4 1%positive
       {[ 1%positive := [Samples.scenario "slow" 20 300;
                         Samples.scenario "fast" 10 300] ]}))) =
  Some (["fast"; "slow"], "Best Throughput: fast (300.00 req/sec)").
Proof. vm_compute. reflexivity. Qed.
